(** * pathmaster: the path of the running executable

    A shallow embedding of [include/pathmaster/pathmaster.hpp] and of the
    self-test [tests/pathmaster_test.cpp].

    The header is one function, [get_executable_path], with four
    mutually exclusive preprocessor branches.  Each branch talks to the
    operating system (a symlink read, a dyld query, a module-file-name
    query) and to [std::filesystem::canonical]; every such call is kept
    as an oracle of the record [OS], threaded through an explicit world
    state, and logged in a trace, so that statements about "how often"
    and "in which order" can be made.  C++ exceptions are values of
    [outcome]; [try]/[catch] is a combinator of the monad [M].

    Two embeddings of the function are given.  [get_executable_path]
    takes the building of an exception object (the [std::string]
    concatenations of the [throw] expressions) to succeed;
    [get_executable_path_alloc] is the same code with that allocation
    made a call to the host, which can answer [std::bad_alloc];
    [call_alloc_refines] relates the two.

    The [_WIN32] branch does not compile as it is written: in line 84,
    [std::filesystem::path(buffer.data(), size)] matches no constructor
    of [std::filesystem::path] (a [DWORD] converts neither to
    [path::format] nor to [std::locale], and the iterator-pair
    constructor needs two arguments of one type).  [builds] records it.
    [win32_branch] is that branch read as it was evidently meant, the
    path made of the first [size] characters of the buffer; what is
    proved of it is proved of that reading, not of a program that
    exists.

    What is kept abstract, and what is left out:
    - the allocation behind [std::vector] can throw, as the header's
      own comments expect ("This will also catch bad_alloc"); a failure
      while building the argument of [canonical] counts as a failure of
      [canonical];
    - [wchar_t] and [char] buffers hold the same character type, the
      claims depending only on lengths and on characters being passed
      on unchanged;
    - reading a buffer that holds no terminator is undefined in C++;
      [c_str] stops at the end of the buffer. *)

From Stdlib Require Import List String Ascii NArith ZArith Bool Lia.
Import ListNotations.
Open Scope string_scope.

(** ** Exceptions

    Every exception that can travel through the header derives from
    [std::exception]: the header's own [PathMasterError] (a
    [std::runtime_error]), [std::filesystem::filesystem_error] from the
    filesystem calls, [std::bad_alloc] and [std::length_error] from
    [std::vector].  The handler [catch (const std::exception &)] hence
    filters nothing in this model. *)

Inductive exception_class : Type :=
| PathMasterErrorClass
| FilesystemErrorClass
| BadAllocClass
| LengthErrorClass.

Record exception : Type := MkException {
  class_of : exception_class;
  what : string
}.

(** The literal the constructor of [PathMasterError] puts in front of
    every message. *)
Definition PathMasterError_prefix : string := "PathMasterError: ".

(** [explicit PathMasterError(const std::string &message)
       : std::runtime_error("PathMasterError: " + message) {}] *)
Definition PathMasterError (message : string) : exception :=
  {| class_of := PathMasterErrorClass;
     what := PathMasterError_prefix ++ message |}.

Inductive outcome (A : Type) : Type :=
| Returned (a : A)
| Thrown (e : exception).
Arguments Returned {A} a.
Arguments Thrown {A} e.

(** ** Paths

    A [std::filesystem::path] is its native string.  The decomposition
    queries below cover the two native syntaxes the header is compiled
    for; on Windows the root name is a drive ([X:]), UNC and device
    names are outside the model. *)

Definition path : Type := string.

Inductive path_style : Type := Posix | Windows.

Definition slash : ascii := "/"%char.
Definition backslash : ascii := "\"%char.
Definition colon : ascii := ":"%char.
Definition NUL : ascii := Ascii.zero.

Definition is_separator (st : path_style) (c : ascii) : bool :=
  match st with
  | Posix => Ascii.eqb c slash
  | Windows => Ascii.eqb c slash || Ascii.eqb c backslash
  end.

Definition is_letter (c : ascii) : bool :=
  let n := N_of_ascii c in
  ((65 <=? n) && (n <=? 90) || (97 <=? n) && (n <=? 122))%N.

(** [root_name] and what follows it. *)
Definition split_root_name (st : path_style) (p : path) : string * string :=
  match st, p with
  | Windows, String d (String c rest) =>
      if is_letter d && Ascii.eqb c colon
      then (String d (String c EmptyString), rest)
      else (EmptyString, p)
  | _, _ => (EmptyString, p)
  end.

Definition root_name (st : path_style) (p : path) : string :=
  fst (split_root_name st p).

Definition after_root_name (st : path_style) (p : path) : string :=
  snd (split_root_name st p).

Definition has_root_directory (st : path_style) (p : path) : bool :=
  match after_root_name st p with
  | String c _ => is_separator st c
  | EmptyString => false
  end.

Definition is_absolute (st : path_style) (p : path) : bool :=
  match st with
  | Posix => has_root_directory st p
  | Windows =>
      negb (String.eqb (root_name st p) EmptyString) && has_root_directory st p
  end.

(** The text between separators, left to right; an empty text stands
    where two separators meet or where the string starts or ends with
    one. *)
Fixpoint split_segments (st : path_style) (cur : string) (s : string)
  : list string :=
  match s with
  | EmptyString => [cur]
  | String c s' =>
      if is_separator st c
      then cur :: split_segments st EmptyString s'
      else split_segments st (cur ++ String c EmptyString) s'
  end.

Definition segments (st : path_style) (p : path) : list string :=
  split_segments st EmptyString (after_root_name st p).

Definition is_dot_segment (s : string) : bool :=
  String.eqb s "." || String.eqb s "..".

Definition no_dot_segments (st : path_style) (p : path) : bool :=
  forallb (fun s => negb (is_dot_segment s)) (segments st p).

(** [path::filename()]: what follows the last separator. *)
Definition filename (st : path_style) (p : path) : string :=
  last (segments st p) EmptyString.

Fixpoint drop_while {A : Type} (f : A -> bool) (l : list A) : list A :=
  match l with
  | [] => []
  | x :: l' => if f x then drop_while f l' else l
  end.

(** [path::parent_path()]: the path without its last element; the root
    directory is its own parent. *)
Definition parent_path (st : path_style) (p : path) : path :=
  let rest := list_ascii_of_string (after_root_name st p) in
  let upto_sep := rev (drop_while (fun c => negb (is_separator st c)) (rev rest)) in
  let stripped := rev (drop_while (is_separator st) (rev upto_sep)) in
  let dir :=
    match stripped, upto_sep with
    | [], c :: _ => [c]
    | _, _ => stripped
    end in
  root_name st p ++ string_of_list_ascii dir.

(** ** The log of operating-system and allocator calls

    Every entry carries the arguments of the call and what came back. *)

Inductive event : Type :=
| EvVectorNew (n : N) (r : outcome unit)
| EvVectorResize (n : N) (r : outcome unit)
| EvReadSymlink (p : path) (r : outcome path)
| EvCanonical (p : path) (r : outcome path)
| EvNSGetExecutablePath (bufsize : N) (rc : Z) (written : list ascii) (bufsize' : N)
| EvGetModuleFileNameW (nSize : N) (written : list ascii) (ret : N)
| EvStdout (s : string)
| EvException (message : string) (r : outcome unit).

(** ** The host

    [world] is whatever the operating system, the filesystem and the
    allocator remember; every primitive may read and change it.
    - [sys_allocate n]: the allocation behind a vector of [n] elements.
    - [sys_read_symlink], [sys_canonical]: the two [std::filesystem]
      functions of the same names.
    - [sys_NSGetExecutablePath bufsize]: the return code, the characters
      written to the buffer and the value left in [*bufsize].
    - [sys_GetModuleFileNameW nSize]: the characters written and the
      returned length. *)

Record OS : Type := MkOS {
  world : Type;
  style : path_style;
  sys_allocate : N -> world -> world * outcome unit;
  sys_read_symlink : path -> world -> world * outcome path;
  sys_canonical : path -> world -> world * outcome path;
  sys_NSGetExecutablePath : N -> world -> world * (Z * list ascii * N);
  sys_GetModuleFileNameW : N -> world -> world * (list ascii * N)
}.

(** [std::uint32_t] and [DWORD]. *)
Definition uint32 (n : N) : N := (n mod 2 ^ 32)%N.

(** [PATH_MAX] of [<sys/syslimits.h>]. *)
Definition PATH_MAX : N := 1024%N.

(** [EXIT_FAILURE] of [<cstdlib>]. *)
Definition EXIT_FAILURE : Z := 1%Z.

(** ** Buffers *)

Definition buffer : Type := list ascii.

(** What the buffer holds after a callee wrote [written] at its start. *)
Definition store (written : list ascii) (buf : buffer) : buffer :=
  (firstn (List.length buf) written ++ skipn (List.length written) buf)%list.

(** A [const char *] read as a string: up to the first NUL (the model
    stops at the end of the buffer when there is none). *)
Fixpoint c_str (buf : buffer) : string :=
  match buf with
  | [] => EmptyString
  | c :: buf' => if Ascii.eqb c NUL then EmptyString else String c (c_str buf')
  end.

(** The reading given to line 84, [std::filesystem::path(buffer.data(),
    size)]: the path made of the first [size] characters of the buffer.
    The expression itself is ill-formed (no constructor of
    [std::filesystem::path] takes a pointer and a [DWORD]); this is what
    [path(buffer.data(), buffer.data() + size)] would build. *)
Definition path_of_range (buf : buffer) (size : N) : path :=
  string_of_list_ascii (firstn (N.to_nat size) buf).

Definition buffer_size (buf : buffer) : N := N.of_nat (List.length buf).

(** [n] value-initialised characters. *)
Definition zeros (n : N) : buffer := repeat NUL (N.to_nat n).

(** ** The monad: world, log, exceptions *)

Section Program.

Variable os : OS.

Definition state : Type := (world os * list event)%type.

Definition M (A : Type) : Type := state -> state * outcome A.

Definition ret {A : Type} (a : A) : M A := fun s => (s, Returned a).

Definition throw {A : Type} (e : exception) : M A := fun s => (s, Thrown e).

Definition bind {A B : Type} (c : M A) (k : A -> M B) : M B :=
  fun s =>
    match c s with
    | (s', Returned a) => k a s'
    | (s', Thrown e) => (s', Thrown e)
    end.

(** [try { body } catch (const std::exception &e) { handler }] *)
Definition try_catch {A : Type} (body : M A) (handler : exception -> M A) : M A :=
  fun s =>
    match body s with
    | (s', Returned a) => (s', Returned a)
    | (s', Thrown e) => handler e s'
    end.

Definition log (s : state) (w : world os) (ev : event) : state :=
  (w, (snd s ++ [ev])%list).

End Program.

Arguments ret {os A} a.
Arguments throw {os A} e.
Arguments bind {os A B} c k.
Arguments try_catch {os A} body handler.
Arguments log {os} s w ev.

Declare Scope prog_scope.
Delimit Scope prog_scope with prog.
Notation "x <- c ;; k" := (bind c (fun x => k))
  (at level 100, c at next level, right associativity) : prog_scope.
Notation "' pat <- c ;; k" := (bind c (fun x => match x with pat => k end))
  (at level 100, pat pattern, c at next level, right associativity) : prog_scope.
Notation "'try' body 'catch' e => handler" := (try_catch body (fun e => handler))
  (at level 100, e name, body at next level) : prog_scope.
Open Scope prog_scope.

(** ** Primitives, each logging its call *)

Section Header.

Variable os : OS.

(** [std::vector<T> buffer(n)]: [n] value-initialised elements, or the
    allocator's exception. *)
Definition vector_new (n : N) : M os buffer :=
  fun s =>
    let '(w, r) := sys_allocate os n (fst s) in
    (log s w (EvVectorNew n r),
     match r with
     | Returned _ => Returned (zeros n)
     | Thrown e => Thrown e
     end).

(** [buffer.resize(n)]: shrinking keeps the storage and cannot throw;
    growing allocates, and appends value-initialised elements. *)
Definition vector_resize (buf : buffer) (n : N) : M os buffer :=
  fun s =>
    if (n <=? buffer_size buf)%N
    then (log s (fst s) (EvVectorResize n (Returned tt)),
          Returned (firstn (N.to_nat n) buf))
    else
      let '(w, r) := sys_allocate os n (fst s) in
      (log s w (EvVectorResize n r),
       match r with
       | Returned _ =>
           Returned (buf ++ zeros (n - buffer_size buf))%list
       | Thrown e => Thrown e
       end).

Definition read_symlink (p : path) : M os path :=
  fun s =>
    let '(w, r) := sys_read_symlink os p (fst s) in
    (log s w (EvReadSymlink p r), r).

Definition canonical (p : path) : M os path :=
  fun s =>
    let '(w, r) := sys_canonical os p (fst s) in
    (log s w (EvCanonical p r), r).

(** [_NSGetExecutablePath(buffer.data(), &size)]: the return code, the
    buffer and [size] after the call. *)
Definition _NSGetExecutablePath (buf : buffer) (size : N) : M os (Z * buffer * N) :=
  fun s =>
    let '(w, (rc, written, size')) := sys_NSGetExecutablePath os size (fst s) in
    (log s w (EvNSGetExecutablePath size rc written (uint32 size')),
     Returned (rc, store written buf, uint32 size')).

(** [GetModuleFileNameW(nullptr, buffer.data(), nSize)]: the buffer
    after the call and the returned [DWORD]. *)
Definition GetModuleFileNameW (buf : buffer) (nSize : N) : M os (buffer * N) :=
  fun s =>
    let '(w, (written, n)) := sys_GetModuleFileNameW os nSize (fst s) in
    (log s w (EvGetModuleFileNameW nSize written (uint32 n)),
     Returned (store written buf, uint32 n)).

Definition cout (text : string) : M os unit :=
  fun s => (log s (fst s) (EvStdout text), Returned tt).

(** ** The build target

    The three macros the header tests, and the [#if]/[#elif] chain that
    picks one branch. *)

Record target : Type := MkTarget {
  defined_linux : bool;
  defined_APPLE : bool;
  defined_WIN32 : bool
}.

Inductive branch : Type := LinuxBranch | AppleBranch | Win32Branch | ElseBranch.

Definition select_branch (t : target) : branch :=
  if defined_linux t then LinuxBranch
  else if defined_APPLE t then AppleBranch
  else if defined_WIN32 t then Win32Branch
  else ElseBranch.

(** ** [get_executable_path]

    In the definitions of this section a [throw] expression throws the
    exception it names: the memory for the message is taken as granted.
    [get_executable_path_alloc] below drops that assumption. *)

Definition proc_self_exe : path := "/proc/self/exe".

Definition linux_label : string :=
  "Failed to get the executable path on GNU/Linux: ".
Definition apple_query_message : string :=
  "Failed to get the executable path on MacOS after resizing the buffer".
Definition apple_label : string :=
  "Failed to canonicalize the path on MacOS: ".
Definition win32_query_message : string :=
  "Failed to get the executable path on Windows".
Definition win32_label : string :=
  "Failed to canonicalize the path on Windows: ".
Definition else_message : string := "Unsupported platform".

Definition linux_branch : M os path :=
  try (raw <- read_symlink proc_self_exe;;
       canonical raw)
  catch e =>
    throw (PathMasterError (linux_label ++ what e)).

Definition apple_branch : M os path :=
  try (buffer0 <- vector_new PATH_MAX;;
       let size0 := uint32 (buffer_size buffer0) in
       '(rc1, buffer1, size1) <- _NSGetExecutablePath buffer0 size0;;
       buffer3 <-
         (if negb (rc1 =? 0)%Z
          then
            buffer2 <- vector_resize buffer1 size1;;
            '(rc2, buffer3, _) <- _NSGetExecutablePath buffer2 size1;;
            if negb (rc2 =? 0)%Z
            then throw (PathMasterError apple_query_message)
            else ret buffer3
          else ret buffer1);;
       canonical (c_str buffer3))
  catch e =>
    throw (PathMasterError (apple_label ++ what e)).

(** Lines 77-88, with line 84 read through [path_of_range]: as written
    the branch is ill-formed, see [builds]. *)
Definition win32_branch : M os path :=
  try (buffer0 <- vector_new 32767%N;;
       '(buffer1, size) <- GetModuleFileNameW buffer0 (uint32 (buffer_size buffer0));;
       if (size =? 0)%N
       then throw (PathMasterError win32_query_message)
       else canonical (path_of_range buffer1 size))
  catch e =>
    throw (PathMasterError (win32_label ++ what e)).

Definition else_branch : M os path :=
  throw (PathMasterError else_message).

Definition get_executable_path (t : target) : M os path :=
  match select_branch t with
  | LinuxBranch => linux_branch
  | AppleBranch => apple_branch
  | Win32Branch => win32_branch
  | ElseBranch => else_branch
  end.

(** Whether the header compiles for a target: every branch does but the
    [_WIN32] one, whose line 84 calls a constructor that
    [std::filesystem::path] does not have. *)
Definition builds (t : target) : bool :=
  match select_branch t with
  | Win32Branch => false
  | LinuxBranch | AppleBranch | ElseBranch => true
  end.

(** ** The self-test *)

Definition double_quote : ascii := ascii_of_nat 34.
Definition newline : string := String (ascii_of_nat 10) EmptyString.

(** [operator<<] on a path writes it as [std::quoted] does. *)
Fixpoint escape (s : string) : string :=
  match s with
  | EmptyString => EmptyString
  | String c s' =>
      if Ascii.eqb c double_quote || Ascii.eqb c backslash
      then String backslash (String c (escape s'))
      else String c (escape s')
  end.

Definition quoted (p : path) : string :=
  String double_quote (escape p ++ String double_quote EmptyString).

Definition main (t : target) : M os Z :=
  executable_path <- get_executable_path t;;
  _ <- cout "Executable path: ";;
  _ <- cout (quoted executable_path);;
  _ <- cout newline;;
  _ <- cout "Directory path: ";;
  _ <- cout (quoted (parent_path (style os) executable_path));;
  _ <- cout newline;;
  ret (if String.eqb (filename (style os) executable_path) "pathmaster_test"
       then 0%Z else EXIT_FAILURE).

(** How a process ends: [main] returns its exit status, or an exception
    leaves [main] and [std::terminate] is called. *)
Inductive process_end : Type :=
| Exited (status : Z)
| Terminated (e : exception).

Definition run_main (t : target) (w : world os) : world os * list event * process_end :=
  match main t (w, []) with
  | ((w', tr), Returned status) => (w', tr, Exited status)
  | ((w', tr), Thrown e) => (w', tr, Terminated e)
  end.

(** One call of [get_executable_path] from the world [w], with a fresh
    log. *)
Definition call (t : target) (w : world os) : world os * list event * outcome path :=
  match get_executable_path t (w, []) with
  | ((w', tr), r) => (w', tr, r)
  end.

End Header.

Arguments call os t w : clear implicits.
Arguments run_main os t w : clear implicits.

(** ** The same function, with the exception objects allocated

    [throw PathMasterError(text)] needs memory before anything is
    thrown: for [text] itself (in the handlers, the concatenation of
    the label and [e.what()]) and for the message of the exception,
    "PathMasterError: " + [text].  Here every [throw] expression of the
    header asks the host for it, once, and throws what the host
    answers when that is an exception: a [std::bad_alloc] raised in the
    [try] block is caught like any other, one raised in a handler, or
    in the branch without handler, leaves the function. *)

Section Allocating.

Variable os : OS.

(** The memory for an exception with this text: granted, or
    [std::bad_alloc]. *)
Variable sys_allocate_message : string -> world os -> world os * outcome unit.

Definition allocate_message (text : string) : M os unit :=
  fun s =>
    let '(w, r) := sys_allocate_message text (fst s) in
    (log s w (EvException text r), r).

Definition throw_PathMasterError {A : Type} (text : string) : M os A :=
  _ <- allocate_message text;;
  throw (PathMasterError text).

Definition linux_branch_alloc : M os path :=
  try (raw <- read_symlink os proc_self_exe;;
       canonical os raw)
  catch e =>
    throw_PathMasterError (linux_label ++ what e).

Definition apple_branch_alloc : M os path :=
  try (buffer0 <- vector_new os PATH_MAX;;
       let size0 := uint32 (buffer_size buffer0) in
       '(rc1, buffer1, size1) <- _NSGetExecutablePath os buffer0 size0;;
       buffer3 <-
         (if negb (rc1 =? 0)%Z
          then
            buffer2 <- vector_resize os buffer1 size1;;
            '(rc2, buffer3, _) <- _NSGetExecutablePath os buffer2 size1;;
            if negb (rc2 =? 0)%Z
            then throw_PathMasterError apple_query_message
            else ret buffer3
          else ret buffer1);;
       canonical os (c_str buffer3))
  catch e =>
    throw_PathMasterError (apple_label ++ what e).

(** Lines 77-88 under the reading of [win32_branch]. *)
Definition win32_branch_alloc : M os path :=
  try (buffer0 <- vector_new os 32767%N;;
       '(buffer1, size) <- GetModuleFileNameW os buffer0 (uint32 (buffer_size buffer0));;
       if (size =? 0)%N
       then throw_PathMasterError win32_query_message
       else canonical os (path_of_range buffer1 size))
  catch e =>
    throw_PathMasterError (win32_label ++ what e).

Definition else_branch_alloc : M os path :=
  throw_PathMasterError else_message.

Definition get_executable_path_alloc (t : target) : M os path :=
  match select_branch t with
  | LinuxBranch => linux_branch_alloc
  | AppleBranch => apple_branch_alloc
  | Win32Branch => win32_branch_alloc
  | ElseBranch => else_branch_alloc
  end.

Definition call_alloc (t : target) (w : world os)
  : world os * list event * outcome path :=
  match get_executable_path_alloc t (w, []) with
  | ((w', tr), r) => (w', tr, r)
  end.

End Allocating.

Arguments call_alloc os sys_allocate_message t w : clear implicits.

(** The log without the entries of [allocate_message]. *)
Definition without_exceptions (tr : list event) : list event :=
  filter (fun ev => match ev with EvException _ _ => false | _ => true end) tr.

(** What [last] answers on an empty log. *)
Definition no_event : event := EvStdout EmptyString.

(** ** What [std::filesystem::canonical] promises

    "An absolute path that has no symbolic link, dot, or dot-dot
    elements": the part of the library's postcondition that can be read
    off the returned string. *)
Definition canonical_contract (os : OS) : Prop :=
  forall p w w' q,
    sys_canonical os p w = (w', Returned q) ->
    is_absolute (style os) q = true /\ no_dot_segments (style os) q = true.

(** ** Reading the log *)

(** The dyld queries of a log: buffer size passed, return code, size
    reported. *)
Definition queries (tr : list event) : list (N * Z * N) :=
  flat_map (fun ev =>
              match ev with
              | EvNSGetExecutablePath bs rc _ n => [(bs, rc, n)]
              | _ => []
              end) tr.

(** The [resize] calls of a log: requested size and outcome. *)
Definition resizes (tr : list event) : list (N * outcome unit) :=
  flat_map (fun ev =>
              match ev with
              | EvVectorResize n r => [(n, r)]
              | _ => []
              end) tr.

(** The exception a logged call ended with, if it did. *)
Definition raised_by (ev : event) : option exception :=
  match ev with
  | EvVectorNew _ (Thrown e)
  | EvVectorResize _ (Thrown e)
  | EvReadSymlink _ (Thrown e)
  | EvCanonical _ (Thrown e) => Some e
  | _ => None
  end.


Definition failed {A : Type} (r : outcome A) : Prop :=
  exists e, r = Thrown e.

(** How often [pat] occurs in [s]. *)
Fixpoint occurrences (pat s : string) : nat :=
  match s with
  | EmptyString => if String.eqb pat EmptyString then 1 else 0
  | String _ s' => (if String.prefix pat s then 1 else 0) + occurrences pat s'
  end.

(** A message that names the canonicalization step as the one that
    failed. *)
Definition labelled_canonicalization (message : string) : bool :=
  String.prefix (PathMasterError_prefix ++ "Failed to canonicalize the path") message.

(** ** The targets *)

Definition linux_target : target := MkTarget true false false.
Definition apple_target : target := MkTarget false true false.
Definition win32_target : target := MkTarget false false true.

(** ** A concrete host

    A small machine to run the header on: a table of the files that
    exist, what [/proc/self/exe] points to, the image path the loader
    reports, and a heap that refuses large blocks.  No call changes
    it. *)

Module Demo.

Record host : Type := MkHost {
  exe_link : option path;
  image : string;
  reported_size : option N;
  files : list path;
  heap : N
}.

Definition allocate (n : N) (h : host) : host * outcome unit :=
  if (n <=? heap h)%N
  then (h, Returned tt)
  else (h, Thrown (MkException BadAllocClass "std::bad_alloc")).

Definition filesystem_error (fn : string) (p : path) : exception :=
  MkException FilesystemErrorClass
    ("filesystem error: cannot " ++ fn ++ ": No such file or directory [" ++ p ++ "]").

Definition do_read_symlink (p : path) (h : host) : host * outcome path :=
  match exe_link h with
  | Some q =>
      if String.eqb p proc_self_exe
      then (h, Returned q)
      else (h, Thrown (filesystem_error "read symlink" p))
  | None => (h, Thrown (filesystem_error "read symlink" p))
  end.

(** Segments with the empty and [.] ones dropped and [..] applied. *)
Fixpoint normal_segments (todo kept : list string) : list string :=
  match todo with
  | [] => rev kept
  | s :: todo' =>
      if String.eqb s EmptyString || String.eqb s "."
      then normal_segments todo' kept
      else if String.eqb s ".."
           then normal_segments todo' (tl kept)
           else normal_segments todo' (s :: kept)
  end.

Definition preferred_separator (st : path_style) : string :=
  match st with
  | Posix => "/"
  | Windows => "\"
  end.

Definition lexically_normal (st : path_style) (p : path) : path :=
  match normal_segments (segments st p) [] with
  | [] => root_name st p ++ preferred_separator st
  | segs =>
      root_name st p
      ++ String.concat EmptyString (map (fun s => preferred_separator st ++ s) segs)
  end.

Definition do_canonical (st : path_style) (p : path) (h : host) : host * outcome path :=
  let q := lexically_normal st p in
  if is_absolute st p
     && existsb (String.eqb q) (files h)
     && is_absolute st q
     && no_dot_segments st q
  then (h, Returned q)
  else (h, Thrown (filesystem_error "make canonical path" p)).

Definition do_NSGetExecutablePath (bufsize : N) (h : host)
  : host * (Z * list ascii * N) :=
  let needed := N.of_nat (String.length (image h) + 1) in
  if (needed <=? bufsize)%N
  then (h, (0%Z, (list_ascii_of_string (image h) ++ [NUL])%list, bufsize))
  else (h, ((-1)%Z, [],
            match reported_size h with
            | Some n => n
            | None => needed
            end)).

Definition do_GetModuleFileNameW (nSize : N) (h : host) : host * (list ascii * N) :=
  let len := N.of_nat (String.length (image h)) in
  if (len <? nSize)%N
  then (h, ((list_ascii_of_string (image h) ++ [NUL])%list, len))
  else (h, (firstn (N.to_nat nSize) (list_ascii_of_string (image h)), nSize)).

Definition machine (st : path_style) : OS :=
  {| world := host;
     style := st;
     sys_allocate := allocate;
     sys_read_symlink := do_read_symlink;
     sys_canonical := do_canonical st;
     sys_NSGetExecutablePath := do_NSGetExecutablePath;
     sys_GetModuleFileNameW := do_GetModuleFileNameW |}.

Definition posix : OS := machine Posix.
Definition windows : OS := machine Windows.

(** A healthy Unix host: the binary is started through a path with a
    dot segment in it. *)
Definition unix_host : host :=
  {| exe_link := Some "/home/user/build/./pathmaster_test";
     image := "/home/user/build/../build/pathmaster_test";
     reported_size := None;
     files := ["/home/user/build/pathmaster_test"];
     heap := 65536 |}.

(** The binary was deleted after start. *)
Definition unlinked_host : host :=
  {| exe_link := Some "/home/user/build/pathmaster_test (deleted)";
     image := "/home/user/build/pathmaster_test";
     reported_size := None;
     files := [];
     heap := 65536 |}.

(** No [/proc]. *)
Definition no_proc_host : host :=
  {| exe_link := None;
     image := "/home/user/build/pathmaster_test";
     reported_size := None;
     files := ["/home/user/build/pathmaster_test"];
     heap := 65536 |}.

(** The binary under another name. *)
Definition renamed_host : host :=
  {| exe_link := Some "/home/user/build/selftest";
     image := "/home/user/build/selftest";
     reported_size := None;
     files := ["/home/user/build/selftest"];
     heap := 65536 |}.

(** An image path longer than [PATH_MAX]. *)
Definition deep_directory : string :=
  String.concat EmptyString (repeat "/nested" 160).

Definition deep_image : string := deep_directory ++ "/pathmaster_test".

Definition deep_host : host :=
  {| exe_link := Some deep_image;
     image := deep_image;
     reported_size := None;
     files := [deep_image];
     heap := 65536 |}.


(** The same, with a loader that reports a required size of zero. *)
Definition deep_host_bad_loader : host :=
  {| exe_link := Some deep_image;
     image := deep_image;
     reported_size := Some 0%N;
     files := [deep_image];
     heap := 65536 |}.

(** A healthy Windows host. *)
Definition windows_host : host :=
  {| exe_link := None;
     image := "C:\build\.\pathmaster_test.exe";
     reported_size := None;
     files := ["C:\build\pathmaster_test.exe"];
     heap := 65536 |}.

(** A Windows host whose module query fails. *)
Definition windows_host_no_module : host :=
  {| exe_link := None;
     image := EmptyString;
     reported_size := None;
     files := ["C:\build\pathmaster_test.exe"];
     heap := 65536 |}.

(** A Windows host without memory for the buffer. *)
Definition windows_host_small_heap : host :=
  {| exe_link := None;
     image := "C:\build\pathmaster_test.exe";
     reported_size := None;
     files := ["C:\build\pathmaster_test.exe"];
     heap := 4096 |}.

(** Memory for the messages of exceptions: texts of up to [limit]
    characters. *)
Definition allocate_message (limit : nat) (text : string) (h : host)
  : host * outcome unit :=
  if (String.length text <=? limit)%nat
  then (h, Returned tt)
  else (h, Thrown (MkException BadAllocClass "std::bad_alloc")).

End Demo.

(** A host on which nothing works but the allocator: no link, no file,
    a loader and a module query that always refuse. *)

Module Broken.

Definition no_entry : exception :=
  MkException FilesystemErrorClass "filesystem error: No such file or directory".

Definition machine : OS :=
  {| world := unit;
     style := Posix;
     sys_allocate := fun _ w => (w, Returned tt);
     sys_read_symlink := fun _ w => (w, Thrown no_entry);
     sys_canonical := fun _ w => (w, Thrown no_entry);
     sys_NSGetExecutablePath := fun _ w => (w, ((-1)%Z, [], 0%N));
     sys_GetModuleFileNameW := fun _ w => (w, ([], 0%N)) |}.

Definition allocate_message (text : string) (w : unit) : unit * outcome unit :=
  (w, Returned tt).

End Broken.

(** The concrete host of [Demo] with a counter of the calls made so
    far: every primitive changes the world, none changes what the host
    knows about files and images. *)

Module Counting.

Definition counted {A B : Type} (f : A -> Demo.host -> Demo.host * B)
  (a : A) (w : Demo.host * nat) : (Demo.host * nat) * B :=
  let '(h, r) := f a (fst w) in ((h, S (snd w)), r).

Definition machine : OS :=
  {| world := (Demo.host * nat)%type;
     style := Posix;
     sys_allocate := counted Demo.allocate;
     sys_read_symlink := counted Demo.do_read_symlink;
     sys_canonical := counted (Demo.do_canonical Posix);
     sys_NSGetExecutablePath := counted Demo.do_NSGetExecutablePath;
     sys_GetModuleFileNameW := counted Demo.do_GetModuleFileNameW |}.

(** Two worlds of the counting host with the same files and images. *)
Definition same_host (a b : Demo.host * nat) : Prop := fst a = fst b.

End Counting.


(** ** The runs of the header, one rule per path through the code

    [runs os b w w' tr r]: started in world [w], branch [b] ends in
    world [w'] having logged [tr], with result [r].  The rules are the
    paths through [get_executable_path]; [call_runs] below shows that
    the function always follows one of them. *)

Section Runs.

Variable os : OS.

(** [canonical(raw)] inside a [try] whose handler puts [label] in
    front. *)
Inductive canonical_step (label : string) (raw : path) (w : world os)
  : world os -> event -> outcome path -> Prop :=
| CanonicalReturns w' q :
    sys_canonical os raw w = (w', Returned q) ->
    canonical_step label raw w w' (EvCanonical raw (Returned q)) (Returned q)
| CanonicalThrows w' e :
    sys_canonical os raw w = (w', Thrown e) ->
    canonical_step label raw w w' (EvCanonical raw (Thrown e))
      (Thrown (PathMasterError (label ++ what e))).

(** [buf.resize(n)]: the world after, the logged outcome, the buffer. *)
Inductive resize_step (buf : buffer) (n : N) (w : world os)
  : world os -> outcome unit -> outcome buffer -> Prop :=
| ResizeShrinks :
    (n <= buffer_size buf)%N ->
    resize_step buf n w w (Returned tt) (Returned (firstn (N.to_nat n) buf))
| ResizeGrows w' :
    (buffer_size buf < n)%N ->
    sys_allocate os n w = (w', Returned tt) ->
    resize_step buf n w w' (Returned tt)
      (Returned (buf ++ zeros (n - buffer_size buf))%list)
| ResizeThrows w' e :
    (buffer_size buf < n)%N ->
    sys_allocate os n w = (w', Thrown e) ->
    resize_step buf n w w' (Thrown e) (Thrown e).

Inductive runs : branch -> world os -> world os -> list event -> outcome path -> Prop :=
| RunElse w :
    runs ElseBranch w w [] (Thrown (PathMasterError else_message))
| RunLinuxNoLink w w1 e :
    sys_read_symlink os proc_self_exe w = (w1, Thrown e) ->
    runs LinuxBranch w w1
      [EvReadSymlink proc_self_exe (Thrown e)]
      (Thrown (PathMasterError (linux_label ++ what e)))
| RunLinuxLink w w1 raw w2 ev r :
    sys_read_symlink os proc_self_exe w = (w1, Returned raw) ->
    canonical_step linux_label raw w1 w2 ev r ->
    runs LinuxBranch w w2
      [EvReadSymlink proc_self_exe (Returned raw); ev] r
| RunAppleNoBuffer w w1 e :
    sys_allocate os PATH_MAX w = (w1, Thrown e) ->
    runs AppleBranch w w1
      [EvVectorNew PATH_MAX (Thrown e)]
      (Thrown (PathMasterError (apple_label ++ what e)))
| RunAppleFirstTry w w1 w2 written n w3 ev r :
    sys_allocate os PATH_MAX w = (w1, Returned tt) ->
    sys_NSGetExecutablePath os PATH_MAX w1 = (w2, (0%Z, written, n)) ->
    canonical_step apple_label (c_str (store written (zeros PATH_MAX))) w2 w3 ev r ->
    runs AppleBranch w w3
      [EvVectorNew PATH_MAX (Returned tt);
       EvNSGetExecutablePath PATH_MAX 0 written (uint32 n);
       ev] r
| RunAppleResizeThrows w w1 w2 rc written n w3 e :
    sys_allocate os PATH_MAX w = (w1, Returned tt) ->
    sys_NSGetExecutablePath os PATH_MAX w1 = (w2, (rc, written, n)) ->
    rc <> 0%Z ->
    resize_step (store written (zeros PATH_MAX)) (uint32 n) w2 w3 (Thrown e) (Thrown e) ->
    runs AppleBranch w w3
      [EvVectorNew PATH_MAX (Returned tt);
       EvNSGetExecutablePath PATH_MAX rc written (uint32 n);
       EvVectorResize (uint32 n) (Thrown e)]
      (Thrown (PathMasterError (apple_label ++ what e)))
| RunAppleRetryFails w w1 w2 rc written n w3 buf w4 rc' written' n' :
    sys_allocate os PATH_MAX w = (w1, Returned tt) ->
    sys_NSGetExecutablePath os PATH_MAX w1 = (w2, (rc, written, n)) ->
    rc <> 0%Z ->
    resize_step (store written (zeros PATH_MAX)) (uint32 n) w2 w3 (Returned tt) (Returned buf) ->
    sys_NSGetExecutablePath os (uint32 n) w3 = (w4, (rc', written', n')) ->
    rc' <> 0%Z ->
    runs AppleBranch w w4
      [EvVectorNew PATH_MAX (Returned tt);
       EvNSGetExecutablePath PATH_MAX rc written (uint32 n);
       EvVectorResize (uint32 n) (Returned tt);
       EvNSGetExecutablePath (uint32 n) rc' written' (uint32 n')]
      (Thrown (PathMasterError
                 (apple_label ++ what (PathMasterError apple_query_message))))
| RunAppleRetry w w1 w2 rc written n w3 buf w4 written' n' w5 ev r :
    sys_allocate os PATH_MAX w = (w1, Returned tt) ->
    sys_NSGetExecutablePath os PATH_MAX w1 = (w2, (rc, written, n)) ->
    rc <> 0%Z ->
    resize_step (store written (zeros PATH_MAX)) (uint32 n) w2 w3 (Returned tt) (Returned buf) ->
    sys_NSGetExecutablePath os (uint32 n) w3 = (w4, (0%Z, written', n')) ->
    canonical_step apple_label (c_str (store written' buf)) w4 w5 ev r ->
    runs AppleBranch w w5
      [EvVectorNew PATH_MAX (Returned tt);
       EvNSGetExecutablePath PATH_MAX rc written (uint32 n);
       EvVectorResize (uint32 n) (Returned tt);
       EvNSGetExecutablePath (uint32 n) 0 written' (uint32 n');
       ev] r
| RunWin32NoBuffer w w1 e :
    sys_allocate os 32767%N w = (w1, Thrown e) ->
    runs Win32Branch w w1
      [EvVectorNew 32767 (Thrown e)]
      (Thrown (PathMasterError (win32_label ++ what e)))
| RunWin32Zero w w1 w2 written n :
    sys_allocate os 32767%N w = (w1, Returned tt) ->
    sys_GetModuleFileNameW os 32767%N w1 = (w2, (written, n)) ->
    uint32 n = 0%N ->
    runs Win32Branch w w2
      [EvVectorNew 32767 (Returned tt);
       EvGetModuleFileNameW 32767 written (uint32 n)]
      (Thrown (PathMasterError
                 (win32_label ++ what (PathMasterError win32_query_message))))
| RunWin32Nonzero w w1 w2 written n w3 ev r :
    sys_allocate os 32767%N w = (w1, Returned tt) ->
    sys_GetModuleFileNameW os 32767%N w1 = (w2, (written, n)) ->
    uint32 n <> 0%N ->
    canonical_step win32_label
      (path_of_range (store written (zeros 32767)) (uint32 n)) w2 w3 ev r ->
    runs Win32Branch w w3
      [EvVectorNew 32767 (Returned tt);
       EvGetModuleFileNameW 32767 written (uint32 n);
       ev] r.

End Runs.

(** ** The two sentences of the specification that the code does not
    follow to the letter, as they are written *)


Definition query_returned_zero (tr : list event) : Prop :=
  exists nSize written, In (EvGetModuleFileNameW nSize written 0) tr.

Definition canonical_threw (tr : list event) : Prop :=
  exists p e, In (EvCanonical p (Thrown e)) tr.

Definition buffer_allocation_threw (tr : list event) : Prop :=
  exists n e, In (EvVectorNew n (Thrown e)) tr.

Definition canonical_called (tr : list event) : Prop :=
  exists p r, In (EvCanonical p r) tr.

(** "It either returns a path or throws exactly one error kind." *)
Definition throws_only_PathMasterError (os : OS)
    (alloc : string -> world os -> world os * outcome unit)
    (t : target) (w : world os) : Prop :=
  match snd (call_alloc os alloc t w) with
  | Returned _ => True
  | Thrown e => class_of e = PathMasterErrorClass
  end.

(** "Every error object thrown carries a what() that begins with the
    prefix." *)
Definition every_what_has_prefix (os : OS)
    (alloc : string -> world os -> world os * outcome unit)
    (t : target) (w : world os) : Prop :=
  forall e,
    snd (call_alloc os alloc t w) = Thrown e ->
    String.prefix "PathMasterError: " (what e) = true.

(** The host answers the questions about the executable alike in any
    two worlds that [sim] relates; the allocator may answer
    differently. *)
Definition same_answers (os : OS) (sim : world os -> world os -> Prop) : Prop :=
  (forall p a b, sim a b ->
     snd (sys_read_symlink os p a) = snd (sys_read_symlink os p b)) /\
  (forall p a b, sim a b ->
     snd (sys_canonical os p a) = snd (sys_canonical os p b)) /\
  (forall n a b, sim a b ->
     snd (sys_NSGetExecutablePath os n a) = snd (sys_NSGetExecutablePath os n b)) /\
  (forall n a b, sim a b ->
     snd (sys_GetModuleFileNameW os n a) = snd (sys_GetModuleFileNameW os n b)).

(** A computation that only appends to the log it is given, and is
    otherwise blind to it. *)
Definition appends {os : OS} {A : Type} (c : M os A) : Prop :=
  forall w tr0,
    c (w, tr0) = let '((w', tr), r) := c (w, []) in ((w', (tr0 ++ tr)%list), r).

(** Two calls in a row, as a caller in the same process makes them. *)
Definition call_twice (os : OS) (t : target) : M os (path * path) :=
  first <- get_executable_path os t;;
  second <- get_executable_path os t;;
  ret (first, second).

(** ** Further readings of the log and of the messages *)

(** The text the outer handler of a branch puts in front of what it
    caught; the unsupported branch has no handler and throws its own
    message. *)
Definition branch_label (b : branch) : string :=
  match b with
  | LinuxBranch => linux_label
  | AppleBranch => apple_label
  | Win32Branch => win32_label
  | ElseBranch => else_message
  end.

(** The calls each branch is written with. *)
Definition event_of_branch (b : branch) (ev : event) : bool :=
  match b, ev with
  | LinuxBranch, EvReadSymlink _ _
  | LinuxBranch, EvCanonical _ _
  | AppleBranch, EvVectorNew _ _
  | AppleBranch, EvVectorResize _ _
  | AppleBranch, EvNSGetExecutablePath _ _ _ _
  | AppleBranch, EvCanonical _ _
  | Win32Branch, EvVectorNew _ _
  | Win32Branch, EvGetModuleFileNameW _ _ _
  | Win32Branch, EvCanonical _ _ => true
  | _, _ => false
  end.

Definition resize_threw (tr : list event) : Prop :=
  exists n e, In (EvVectorResize n (Thrown e)) tr.

(** The retry of the dyld query was refused too. *)
Definition retry_refused (tr : list event) : Prop :=
  exists first bs rc n, queries tr = [first; (bs, rc, n)] /\ rc <> 0%Z.

(** What a log wrote to standard output, in order. *)
Definition stdout_text (tr : list event) : string :=
  fold_right append EmptyString
    (flat_map (fun ev =>
                 match ev with
                 | EvStdout text => [text]
                 | _ => []
                 end) tr).

(** Every primitive of the host moves the world along [R]. *)
Definition respects (os : OS) (R : world os -> world os -> Prop) : Prop :=
  (forall n w, R w (fst (sys_allocate os n w))) /\
  (forall p w, R w (fst (sys_read_symlink os p w))) /\
  (forall p w, R w (fst (sys_canonical os p w))) /\
  (forall n w, R w (fst (sys_NSGetExecutablePath os n w))) /\
  (forall n w, R w (fst (sys_GetModuleFileNameW os n w))).

(** * Properties *)

(** ** The path queries on a few paths *)

Example filename_posix :
  map (filename Posix) ["/usr/bin/env"; "/usr/bin/"; "/"; "env"; "/opt/a.out"]
  = ["env"; ""; ""; "env"; "a.out"].
Proof. reflexivity. Qed.

Example filename_windows :
  map (filename Windows) ["C:\tools\run.exe"; "C:/tools/run.exe"; "C:run.exe"; "C:\"]
  = ["run.exe"; "run.exe"; "run.exe"; ""].
Proof. reflexivity. Qed.

Example parent_path_posix :
  map (parent_path Posix) ["/usr/bin/env"; "/usr"; "/"; "env"; "usr/bin"]
  = ["/usr/bin"; "/"; "/"; ""; "usr"].
Proof. reflexivity. Qed.

Example is_absolute_examples :
  map (is_absolute Posix) ["/usr/bin"; "usr/bin"; ""] = [true; false; false] /\
  map (is_absolute Windows) ["C:\tools"; "C:tools"; "\tools"] = [true; false; false].
Proof. split; reflexivity. Qed.

Example no_dot_segments_examples :
  map (no_dot_segments Posix) ["/usr/bin"; "/usr/./bin"; "/usr/../bin"; "/usr/.bin"]
  = [true; false; false; true].
Proof. reflexivity. Qed.

Example c_str_stops_at_NUL :
  c_str (store (list_ascii_of_string "/bin/ls" ++ [NUL])%list (zeros 16)) = "/bin/ls".
Proof. reflexivity. Qed.

(** ** Arithmetic of the buffers *)

Lemma buffer_size_zeros (n : N) : buffer_size (zeros n) = n.
Proof.
  unfold buffer_size, zeros. rewrite repeat_length. apply N2Nat.id.
Qed.

Lemma uint32_PATH_MAX : uint32 PATH_MAX = PATH_MAX.
Proof. reflexivity. Qed.

Lemma uint32_32767 : uint32 32767 = 32767%N.
Proof. reflexivity. Qed.

(** ** Every path through the code is one of the rules *)

Ltac reduce_program :=
  cbn [bind try_catch ret throw log fst snd].

Ltac ask_oracle :=
  match goal with
  | |- context [(?rc =? 0)%Z] =>
      destruct (Z.eqb_spec rc 0); subst
  | |- context [(?n =? 0)%N] =>
      let H := fresh "Hsize" in
      destruct (N.eqb_spec n 0) as [H|H]
  | |- context [(?n <=? ?m)%N] =>
      destruct (N.leb_spec n m)
  | |- context [sys_allocate ?o ?n ?w] =>
      let H := fresh "Halloc" in
      destruct (sys_allocate o n w) as [? [[]|?]] eqn:H
  | |- context [sys_read_symlink ?o ?p ?w] =>
      let H := fresh "Hlink" in
      destruct (sys_read_symlink o p w) as [? [?|?]] eqn:H
  | |- context [sys_NSGetExecutablePath ?o ?n ?w] =>
      let H := fresh "Hquery" in
      destruct (sys_NSGetExecutablePath o n w) as [? [[? ?] ?]] eqn:H
  | |- context [sys_GetModuleFileNameW ?o ?n ?w] =>
      let H := fresh "Hquery" in
      destruct (sys_GetModuleFileNameW o n w) as [? [? ?]] eqn:H
  | |- context [sys_canonical ?o ?p ?w] =>
      let H := fresh "Hcanon" in
      destruct (sys_canonical o p w) as [? [?|?]] eqn:H
  end;
  cbn [bind try_catch ret throw log fst snd negb].

Ltac follow_rule :=
  cbn [app];
  solve [ econstructor; solve [ eassumption | constructor; eassumption ] ].

Lemma linux_branch_runs (os : OS) (w : world os) :
  let '(s, r) := linux_branch os (w, []) in
  runs os LinuxBranch w (fst s) (snd s) r.
Proof.
  unfold linux_branch, read_symlink, canonical, try_catch, bind.
  reduce_program.
  repeat ask_oracle; follow_rule.
Qed.

Lemma apple_branch_runs (os : OS) (w : world os) :
  let '(s, r) := apple_branch os (w, []) in
  runs os AppleBranch w (fst s) (snd s) r.
Proof.
  unfold apple_branch, vector_new, vector_resize, _NSGetExecutablePath, canonical,
    try_catch, bind.
  reduce_program.
  ask_oracle; [| follow_rule].
  rewrite buffer_size_zeros, uint32_PATH_MAX.
  repeat ask_oracle; follow_rule.
Qed.

Lemma win32_branch_runs (os : OS) (w : world os) :
  let '(s, r) := win32_branch os (w, []) in
  runs os Win32Branch w (fst s) (snd s) r.
Proof.
  unfold win32_branch, vector_new, GetModuleFileNameW, canonical, try_catch, bind.
  reduce_program.
  ask_oracle; [| follow_rule].
  rewrite buffer_size_zeros, uint32_32767.
  repeat ask_oracle; follow_rule.
Qed.

Lemma call_runs (os : OS) (t : target) (w : world os) :
  let '(w', tr, r) := call os t w in
  runs os (select_branch t) w w' tr r.
Proof.
  unfold call, get_executable_path.
  destruct (select_branch t).
  - generalize (linux_branch_runs os w).
    destruct (linux_branch os (w, [])) as [[w' tr] r]. exact (fun H => H).
  - generalize (apple_branch_runs os w).
    destruct (apple_branch os (w, [])) as [[w' tr] r]. exact (fun H => H).
  - generalize (win32_branch_runs os w).
    destruct (win32_branch os (w, [])) as [[w' tr] r]. exact (fun H => H).
  - apply RunElse.
Qed.

Lemma call_runs_eq (os : OS) (t : target) (w w' : world os) tr r :
  call os t w = (w', tr, r) -> runs os (select_branch t) w w' tr r.
Proof.
  intros H. generalize (call_runs os t w). rewrite H. exact (fun R => R).
Qed.

(** ** The log is write-only *)

Section Appends.

Variable os : OS.

Lemma appends_ret {A : Type} (a : A) : appends (@ret os A a).
Proof. intros w tr0. unfold ret. rewrite app_nil_r. reflexivity. Qed.

Lemma appends_throw {A : Type} (e : exception) : appends (@throw os A e).
Proof. intros w tr0. unfold throw. rewrite app_nil_r. reflexivity. Qed.

Lemma appends_bind {A B : Type} (c : M os A) (k : A -> M os B) :
  appends c -> (forall a, appends (k a)) -> appends (bind c k).
Proof.
  intros Hc Hk w tr0. unfold bind.
  rewrite (Hc w tr0).
  destruct (c (w, [])) as [[w' tr] [a|e]]; [| reflexivity].
  rewrite (Hk a w' (tr0 ++ tr)%list), (Hk a w' tr).
  destruct (k a (w', [])) as [[w'' tr'] r'].
  rewrite app_assoc. reflexivity.
Qed.

Lemma appends_try_catch {A : Type} (body : M os A) (handler : exception -> M os A) :
  appends body -> (forall e, appends (handler e)) -> appends (try_catch body handler).
Proof.
  intros Hb Hh w tr0. unfold try_catch.
  rewrite (Hb w tr0).
  destruct (body (w, [])) as [[w' tr] [a|e]]; [reflexivity |].
  rewrite (Hh e w' (tr0 ++ tr)%list), (Hh e w' tr).
  destruct (handler e (w', [])) as [[w'' tr'] r'].
  rewrite app_assoc. reflexivity.
Qed.

Ltac primitive_appends :=
  intros w tr0; cbv beta delta [log fst snd]; cbn [fst snd];
  repeat match goal with
         | |- context [match ?x with _ => _ end] => destruct x
         end;
  reflexivity.

Lemma appends_vector_new n : appends (vector_new os n).
Proof. unfold vector_new. primitive_appends. Qed.

Lemma appends_vector_resize buf n : appends (vector_resize os buf n).
Proof. unfold vector_resize. primitive_appends. Qed.

Lemma appends_read_symlink p : appends (read_symlink os p).
Proof. unfold read_symlink. primitive_appends. Qed.

Lemma appends_canonical p : appends (canonical os p).
Proof. unfold canonical. primitive_appends. Qed.

Lemma appends_NSGetExecutablePath buf n : appends (_NSGetExecutablePath os buf n).
Proof. unfold _NSGetExecutablePath. primitive_appends. Qed.

Lemma appends_GetModuleFileNameW buf n : appends (GetModuleFileNameW os buf n).
Proof. unfold GetModuleFileNameW. primitive_appends. Qed.

Lemma appends_cout text : appends (cout os text).
Proof. unfold cout. primitive_appends. Qed.

Create HintDb appends_db.
#[local] Hint Resolve appends_ret appends_throw appends_vector_new
  appends_vector_resize appends_read_symlink appends_canonical
  appends_NSGetExecutablePath appends_GetModuleFileNameW appends_cout
  : appends_db.

Ltac compose_appends :=
  repeat first
    [ apply appends_try_catch; intros
    | apply appends_bind; intros
    | solve [auto with appends_db]
    | match goal with
      | |- appends (match ?x with _ => _ end) => destruct x
      | |- appends (if ?b then _ else _) => destruct b
      end ].

Lemma appends_get_executable_path t : appends (get_executable_path os t).
Proof.
  unfold get_executable_path, linux_branch, apple_branch, win32_branch, else_branch.
  destruct (select_branch t); compose_appends.
Qed.

End Appends.

(** ** Consequences of the rules *)

Ltac invert_steps :=
  repeat match goal with
         | H : canonical_step _ _ _ _ _ _ _ |- _ => inversion H; clear H; subst
         end.

Ltac invert_run H :=
  inversion H; subst; invert_steps.

Lemma is_absolute_not_empty (st : path_style) (q : path) :
  is_absolute st q = true -> q <> EmptyString.
Proof.
  intros H E. subst q. destruct st; discriminate H.
Qed.

(** A returned path is what [canonical] returned in the last call. *)
Lemma returned_by_canonical (os : OS) (b : branch) (w w' : world os) tr q :
  runs os b w w' tr (Returned q) ->
  exists tr' raw w0,
    tr = (tr' ++ [EvCanonical raw (Returned q)])%list /\
    sys_canonical os raw w0 = (w', Returned q).
Proof.
  intros H. invert_run H.
  - exists [EvReadSymlink proc_self_exe (Returned raw)], raw, w1. auto.
  - eexists [_; _], _, _. split; [reflexivity | eassumption].
  - eexists [_; _; _; _], _, _. split; [reflexivity | eassumption].
  - eexists [_; _], _, _. split; [reflexivity | eassumption].
Qed.


(** The exception of a call that threw is the tail of the final
    message. *)
Lemma raised_is_wrapped (os : OS) (b : branch) (w w' : world os) tr r ev e' :
  runs os b w w' tr r -> In ev tr -> raised_by ev = Some e' ->
  exists label, r = Thrown (PathMasterError (label ++ what e')).
Proof.
  intros H Hin Hraised.
  invert_run H; cbn [In] in Hin;
    repeat match goal with
           | H : _ \/ _ |- _ => destruct H
           | H : False |- _ => destruct H
           end;
    subst; cbn [raised_by] in Hraised; try discriminate;
    injection Hraised as <-; eexists; reflexivity.
Qed.

(** ** The concrete host honours the contract of [canonical] *)

Lemma demo_machine_contract (st : path_style) : canonical_contract (Demo.machine st).
Proof.
  intros p w w' q H. cbn [Demo.machine sys_canonical style] in *.
  unfold Demo.do_canonical in H.
  destruct (is_absolute st p
            && existsb (String.eqb (Demo.lexically_normal st p)) (Demo.files w)
            && is_absolute st (Demo.lexically_normal st p)
            && no_dot_segments st (Demo.lexically_normal st p)) eqn:E;
    [| discriminate H].
  injection H as _ <-.
  apply andb_prop in E. destruct E as [E Hdots].
  apply andb_prop in E. destruct E as [_ Habs].
  split; assumption.
Qed.

(** ** Results *)





(** ** Messages *)

Lemma prefix_append (p s : string) : String.prefix p (p ++ s) = true.
Proof.
  induction p as [|a p IH]; cbn [String.prefix append].
  - destruct s; reflexivity.
  - destruct (ascii_dec a a) as [_|Hne]; [exact IH | congruence].
Qed.

Ltac in_cases :=
  cbn [In] in *;
  repeat match goal with
         | H : _ \/ _ |- _ => destruct H
         | H : False |- _ => destruct H
         end.

Ltac last_event H :=
  apply (f_equal (fun l => last l (EvStdout EmptyString))) in H;
  rewrite last_last in H; cbn [last] in H.

(** C2 (the code departs from it): on a host whose loader refuses both
    queries, and on a host whose module-file-name query returns zero,
    [canonical] is never called, and yet the message thrown starts with
    "Failed to canonicalize the path": the failed query is reported
    under the label of the canonicalization step, the query's own
    message coming second. *)
Theorem failed_query_labelled_as_canonicalization :
  (let '(_, tr, r) := call Demo.posix apple_target Demo.deep_host_bad_loader in
   queries tr = [(1024%N, (-1)%Z, 0%N); (0%N, (-1)%Z, 0%N)] /\
   ~ canonical_called tr /\
   r = Thrown (MkException PathMasterErrorClass
                 "PathMasterError: Failed to canonicalize the path on MacOS: PathMasterError: Failed to get the executable path on MacOS after resizing the buffer") /\
   forall e, r = Thrown e -> labelled_canonicalization (what e) = true) /\
  (let '(_, tr, r) := call Demo.windows win32_target Demo.windows_host_no_module in
   query_returned_zero tr /\
   ~ canonical_called tr /\
   r = Thrown (MkException PathMasterErrorClass
                 "PathMasterError: Failed to canonicalize the path on Windows: PathMasterError: Failed to get the executable path on Windows") /\
   forall e, r = Thrown e -> labelled_canonicalization (what e) = true).
Proof.
  split.
  - vm_compute.
    split; [reflexivity |].
    split; [intros (p & r & Hin); in_cases; discriminate |].
    split; [reflexivity |].
    intros e He. injection He as <-. reflexivity.
  - vm_compute.
    split; [exists 32767%N, [NUL]; right; left; reflexivity |].
    split; [intros (p & r & Hin); in_cases; discriminate |].
    split; [reflexivity |].
    intros e He. injection He as <-. reflexivity.
Qed.

(** ** The self-test *)



(** ** The retry of the dyld query *)




(** * Further properties of the header and of the self-test *)

(** ** Buffers keep their size, and hold what was written *)

Lemma store_length (written : list ascii) (buf : buffer) :
  List.length (store written buf) = List.length buf.
Proof.
  unfold store. rewrite length_app, length_firstn, length_skipn. lia.
Qed.

Lemma buffer_size_store (written : list ascii) (buf : buffer) :
  buffer_size (store written buf) = buffer_size buf.
Proof. unfold buffer_size. rewrite store_length. reflexivity. Qed.

(** A string with its terminator inside the buffer is read back as it
    was written. *)
Lemma c_str_store (written : list ascii) (buf : buffer) :
  In NUL (firstn (List.length buf) written) ->
  c_str (store written buf) = c_str written.
Proof.
  unfold store. revert buf.
  induction written as [|c written IH]; intros buf Hin.
  - rewrite firstn_nil in Hin. destruct Hin.
  - destruct buf as [|b buf]; [destruct Hin |].
    cbn [List.length firstn skipn app c_str].
    destruct (Ascii.eqb c NUL) eqn:Hc; [reflexivity |].
    f_equal. apply IH.
    cbn [List.length firstn In] in Hin. destruct Hin as [Hc' | Hin]; [| exact Hin].
    subst c. rewrite Ascii.eqb_refl in Hc. discriminate Hc.
Qed.

Lemma resize_step_size (os : OS) (buf buf' : buffer) (n : N) (w w' : world os) r :
  resize_step os buf n w w' r (Returned buf') -> buffer_size buf' = n.
Proof.
  intros H. inversion H; subst; unfold buffer_size in *.
  - rewrite length_firstn. lia.
  - rewrite length_app.
    assert (Hz := buffer_size_zeros (n - N.of_nat (List.length buf))).
    unfold buffer_size in Hz. lia.
Qed.

(** ** What the runs have in common *)

Lemma runs_events_of_branch (os : OS) (b : branch) (w w' : world os) tr r :
  runs os b w w' tr r -> forallb (event_of_branch b) tr = true.
Proof.
  intros H. invert_run H; reflexivity.
Qed.

Lemma runs_message (os : OS) (b : branch) (w w' : world os) tr e :
  runs os b w w' tr (Thrown e) ->
  exists detail,
    what e = PathMasterError_prefix ++ branch_label b ++ detail.
Proof.
  intros H. invert_run H; cbn [branch_label what PathMasterError];
    eexists; reflexivity.
Qed.

Lemma stdout_text_app (tr1 tr2 : list event) :
  stdout_text (tr1 ++ tr2) = stdout_text tr1 ++ stdout_text tr2.
Proof.
  unfold stdout_text. rewrite flat_map_app.
  induction (flat_map
               (fun ev => match ev with EvStdout text => [text] | _ => [] end) tr1)
    as [|x l IH]; cbn [fold_right app append].
  - reflexivity.
  - rewrite IH. clear IH.
    induction x as [|c x IHx]; cbn [append]; [reflexivity | now rewrite IHx].
Qed.

Lemma stdout_text_of_branch (b : branch) (tr : list event) :
  forallb (event_of_branch b) tr = true -> stdout_text tr = EmptyString.
Proof.
  unfold stdout_text.
  induction tr as [|ev tr IH]; intros H; [reflexivity |].
  cbn [forallb] in H. apply andb_prop in H. destruct H as [Hev Htr].
  destruct ev; cbn [flat_map app];
    try (apply IH; exact Htr).
  destruct b; discriminate Hev.
Qed.


(** X3: the log of a call holds only calls of the compiled branch: the
    Linux branch allocates no buffer and makes no query, the Apple
    branch reads no link, the Windows branch never resizes, the
    unsupported branch does nothing, and none writes to standard
    output. *)
Theorem call_stays_in_its_branch (os : OS) (t : target) (w : world os) :
  let '(_, tr, _) := call os t w in
  forallb (event_of_branch (select_branch t)) tr = true /\
  stdout_text tr = EmptyString.
Proof.
  generalize (call_runs os t w).
  destruct (call os t w) as [[w' tr] r]. intros R.
  assert (H := runs_events_of_branch _ _ _ _ _ _ R).
  split; [exact H |].
  exact (stdout_text_of_branch _ _ H).
Qed.

Ltac invert_resizes :=
  repeat match goal with
         | H : resize_step _ _ _ _ _ _ _ |- _ => inversion H; clear H; subst
         end.

(** ** What reaches [canonical] *)

Lemma length_of_buffer_size (buf : buffer) (n : N) :
  buffer_size buf = n -> List.length buf = N.to_nat n.
Proof.
  unfold buffer_size. intros <-. rewrite Nat2N.id. reflexivity.
Qed.

(** X5: when the first dyld query fails and reports a size that is not
    larger than [PATH_MAX] (zero, say), the [resize] only shrinks the
    buffer and cannot throw, so the query is always made a second time,
    with the reported size. *)
Theorem apple_retry_made_when_size_fits (os : OS) (t : target) (w : world os) :
  defined_linux t = false ->
  defined_APPLE t = true ->
  let '(_, tr, _) := call os t w in
  forall rc n rest,
    queries tr = (PATH_MAX, rc, n) :: rest -> rc <> 0%Z -> (n <= PATH_MAX)%N ->
    resizes tr = [(n, Returned tt)] /\
    exists rc' n', rest = [(n, rc', n')].
Proof.
  intros Hlinux Happle.
  generalize (call_runs os t w).
  destruct (call os t w) as [[w' tr] r].
  unfold select_branch. rewrite Hlinux, Happle.
  intros R.
  invert_run R; cbn [queries resizes flat_map app];
    intros rc0 n0 rest Hq Hrc Hfits; try discriminate Hq;
    injection Hq as <- <- <-; try (exfalso; apply Hrc; reflexivity).
  - (* a throwing resize would have had to grow the buffer *)
    exfalso.
    match goal with H : resize_step _ _ _ _ _ _ _ |- _ => inversion H; subst end.
    match goal with H : (buffer_size (store _ _) < _)%N |- _ =>
      rewrite buffer_size_store, buffer_size_zeros in H end.
    lia.
  - split; [reflexivity | eexists _, _; reflexivity].
  - split; [reflexivity | eexists _, _; reflexivity].
  - split; [reflexivity | eexists _, _; reflexivity].
Qed.

Lemma apple_retry_made_when_size_fits_witness :
  defined_linux apple_target = false /\
  defined_APPLE apple_target = true /\
  let '(_, tr, _) := call Demo.posix apple_target Demo.deep_host_bad_loader in
  forall rc n rest,
    queries tr = (PATH_MAX, rc, n) :: rest -> rc <> 0%Z -> (n <= PATH_MAX)%N ->
    resizes tr = [(n, Returned tt)] /\
    exists rc' n', rest = [(n, rc', n')].
Proof.
  split; [reflexivity |].
  split; [reflexivity |].
  apply (apple_retry_made_when_size_fits Demo.posix apple_target
           Demo.deep_host_bad_loader); reflexivity.
Defined.

(** X6: on the Apple branch [canonical] is called only right after a
    dyld query that returned zero, and when that query wrote a
    terminated string into the buffer it was given, [canonical]
    receives exactly that string: neither the zero-filled first buffer
    nor the resized one truncates or pads it. *)
Theorem apple_canonicalizes_what_the_loader_wrote (os : OS) (t : target) (w : world os) :
  defined_linux t = false ->
  defined_APPLE t = true ->
  let '(_, tr, _) := call os t w in
  forall raw rc,
    In (EvCanonical raw rc) tr ->
    exists tr' bs written n,
      tr = (tr' ++ [EvNSGetExecutablePath bs 0 written n; EvCanonical raw rc])%list /\
      (In NUL (firstn (N.to_nat bs) written) -> raw = c_str written).
Proof.
  intros Hlinux Happle.
  generalize (call_runs os t w).
  destruct (call os t w) as [[w' tr] r].
  unfold select_branch. rewrite Hlinux, Happle.
  intros R.
  invert_run R; intros raw0 rc0 Hin; in_cases; try discriminate;
    match goal with
    | H : EvCanonical _ _ = EvCanonical _ _ |- _ => injection H as <- <-
    end.
  1, 2: exists [EvVectorNew PATH_MAX (Returned tt)]; eexists _, _, _;
        (split; [reflexivity |]); intros Hnul; apply c_str_store;
        rewrite (length_of_buffer_size _ _ (buffer_size_zeros PATH_MAX)); exact Hnul.
  1, 2: eexists [_; _; _]; eexists _, _, _;
        (split; [reflexivity |]); intros Hnul; apply c_str_store;
        match goal with H : resize_step _ _ _ _ _ _ _ |- _ =>
          rewrite (length_of_buffer_size _ _ (resize_step_size _ _ _ _ _ _ _ H))
        end; exact Hnul.
Qed.

Lemma apple_canonicalizes_what_the_loader_wrote_witness :
  defined_linux apple_target = false /\
  defined_APPLE apple_target = true /\
  let '(_, tr, _) := call Demo.posix apple_target Demo.deep_host in
  forall raw rc,
    In (EvCanonical raw rc) tr ->
    exists tr' bs written n,
      tr = (tr' ++ [EvNSGetExecutablePath bs 0 written n; EvCanonical raw rc])%list /\
      (In NUL (firstn (N.to_nat bs) written) -> raw = c_str written).
Proof.
  split; [reflexivity |].
  split; [reflexivity |].
  apply (apple_canonicalizes_what_the_loader_wrote Demo.posix apple_target
           Demo.deep_host); reflexivity.
Defined.

(** ** Why a call fails *)

(** X8: a call fails exactly when it was compiled for an unsupported
    target, or one of the calls it made threw (the allocation of the
    buffer, its resize, the link read, [canonical]), or the retried
    dyld query was refused again, or the module-file-name query
    returned zero; there is no other way to fail, and none of these is
    survived. *)
Theorem call_fails_exactly_when (os : OS) (t : target) (w : world os) :
  let '(_, tr, r) := call os t w in
  failed r <->
  select_branch t = ElseBranch \/
  (exists ev e, In ev tr /\ raised_by ev = Some e) \/
  retry_refused tr \/
  query_returned_zero tr.
Proof.
  generalize (call_runs os t w).
  destruct (call os t w) as [[w' tr] r].
  unfold failed, retry_refused, query_returned_zero.
  destruct (select_branch t); intros R; invert_run R;
    cbn [queries flat_map app];
    (split;
     [ intros [e0 He0]; try discriminate He0
     | intros [Hb | [(ev0 & e0 & Hin & Hraised) | [(q0 & bs0 & rc0 & n0 & Hq & Hrc)
                                                  | (nS & wr & Hin)]]];
       try discriminate Hb; try discriminate Hq;
       try (eexists; reflexivity);
       in_cases; subst; try discriminate ]).
  (* the way each failing run failed *)
  all: try (left; reflexivity).
  all: try (right; left; eexists _, _; split;
            [ cbn [In]; eauto 6 | reflexivity ]).
  all: try (right; right; left; eexists _, _, _, _; split; [reflexivity | assumption]).
  all: try (right; right; right; eexists _, _; right; left;
            match goal with H : uint32 _ = 0%N |- _ => rewrite H end; reflexivity).
  (* no cause is present in a run that returned *)
  all: try (exfalso; apply Hrc; congruence).
  all: try (match goal with
            | H : EvGetModuleFileNameW _ _ _ = EvGetModuleFileNameW _ _ _ |- _ =>
                injection H as _ _ Hz; contradiction
            end).
Qed.

(** ** The self-test as a whole *)

Lemma append_empty_r (s : string) : s ++ EmptyString = s.
Proof.
  induction s as [|c s IH]; cbn [append]; [reflexivity | now rewrite IH].
Qed.

(** X9: when the path is resolved, the self-test makes no further call
    to the host, writes exactly two lines to standard output (the
    quoted path, then the quoted directory it is in) and exits with 0
    if the file name is exactly "pathmaster_test", with [EXIT_FAILURE]
    otherwise. *)
Theorem self_test_reports_and_exits (os : OS) (t : target) (w w' : world os) tr q :
  call os t w = (w', tr, Returned q) ->
  run_main os t w
  = (w',
     (tr ++ [EvStdout "Executable path: ";
             EvStdout (quoted q);
             EvStdout newline;
             EvStdout "Directory path: ";
             EvStdout (quoted (parent_path (style os) q));
             EvStdout newline])%list,
     Exited (if String.eqb (filename (style os) q) "pathmaster_test"
             then 0%Z else EXIT_FAILURE)) /\
  stdout_text (snd (fst (run_main os t w)))
  = "Executable path: " ++ quoted q ++ newline
    ++ "Directory path: " ++ quoted (parent_path (style os) q) ++ newline.
Proof.
  intros Hcall.
  assert (Hquiet : stdout_text tr = EmptyString).
  { apply call_runs_eq in Hcall.
    exact (stdout_text_of_branch _ _ (runs_events_of_branch _ _ _ _ _ _ Hcall)). }
  assert (Hrun :
    run_main os t w
    = (w',
       (tr ++ [EvStdout "Executable path: ";
               EvStdout (quoted q);
               EvStdout newline;
               EvStdout "Directory path: ";
               EvStdout (quoted (parent_path (style os) q));
               EvStdout newline])%list,
       Exited (if String.eqb (filename (style os) q) "pathmaster_test"
               then 0%Z else EXIT_FAILURE))).
  { revert Hcall. unfold call, run_main, main, bind, cout, ret, log.
    destruct (get_executable_path os t (w, [])) as [[w1 tr1] [p|e]];
      intros H; [| discriminate H].
    injection H as -> -> ->. cbn [fst snd].
    rewrite <- !app_assoc. reflexivity. }
  split; [exact Hrun |].
  rewrite Hrun. cbn [fst snd].
  rewrite stdout_text_app, Hquiet.
  unfold stdout_text. cbn [flat_map app fold_right].
  rewrite append_empty_r. reflexivity.
Qed.

Lemma self_test_reports_and_exits_witness :
  call Demo.posix linux_target Demo.renamed_host
  = (Demo.renamed_host,
     [EvReadSymlink "/proc/self/exe" (Returned "/home/user/build/selftest");
      EvCanonical "/home/user/build/selftest" (Returned "/home/user/build/selftest")],
     Returned "/home/user/build/selftest") /\
  snd (run_main Demo.posix linux_target Demo.renamed_host) = Exited EXIT_FAILURE /\
  stdout_text (snd (fst (run_main Demo.posix linux_target Demo.renamed_host)))
  = "Executable path: " ++ quoted "/home/user/build/selftest" ++ newline
    ++ "Directory path: " ++ quoted "/home/user/build" ++ newline.
Proof.
  assert (Hcall :
    call Demo.posix linux_target Demo.renamed_host
    = (Demo.renamed_host,
       [EvReadSymlink "/proc/self/exe" (Returned "/home/user/build/selftest");
        EvCanonical "/home/user/build/selftest" (Returned "/home/user/build/selftest")],
       Returned "/home/user/build/selftest"))
    by (vm_compute; reflexivity).
  split; [exact Hcall |].
  destruct (self_test_reports_and_exits Demo.posix linux_target
              Demo.renamed_host _ _ _ Hcall) as [Hrun Hout].
  split; [rewrite Hrun; reflexivity | exact Hout].
Defined.



(** ** The exception class *)

Lemma substring_all (s : string) : substring 0 (String.length s) s = s.
Proof.
  induction s as [|c s IH]; cbn [substring String.length];
    [reflexivity | now rewrite IH].
Qed.

(** X11: the constructor of [PathMasterError] only puts its 17
    characters in front: the message it was given is what follows them
    in [what()], so [what()] is never empty and two exceptions with the
    same [what()] were built from the same message. *)
Theorem PathMasterError_message_round_trip (message : string) :
  substring 17 (String.length message) (what (PathMasterError message)) = message /\
  String.length (what (PathMasterError message)) = (17 + String.length message)%nat /\
  forall other,
    what (PathMasterError message) = what (PathMasterError other) -> message = other.
Proof.
  split; [| split].
  - cbn [what PathMasterError PathMasterError_prefix append substring].
    apply substring_all.
  - reflexivity.
  - intros other H.
    cbn [what PathMasterError PathMasterError_prefix append] in H.
    injection H as H. exact H.
Qed.

(** ** The dyld query that succeeds at once *)



(** * The function with its exception objects allocated *)

Ltac ask_host alloc :=
  first
    [ ask_oracle
    | match goal with
      | |- context [alloc ?text ?w] =>
          let H := fresh "Hmessage" in
          destruct (alloc text w) as [? [[]|?]] eqn:H
      end;
      cbn [bind try_catch ret throw log fst snd negb] ].

Ltac unfold_alloc :=
  unfold call_alloc, get_executable_path_alloc, linux_branch_alloc,
    apple_branch_alloc, win32_branch_alloc, else_branch_alloc,
    throw_PathMasterError, allocate_message, vector_new, vector_resize,
    _NSGetExecutablePath, GetModuleFileNameW, canonical, read_symlink,
    try_catch, bind, throw, ret;
  cbn [bind try_catch ret throw log fst snd negb].

(** Every run of the allocating function ends in one of three ways:
    [canonical] returned, the last handler built its exception, or the
    last attempt to build an exception failed. *)
Lemma call_alloc_cases (os : OS)
    (alloc : string -> world os -> world os * outcome unit)
    (t : target) (w : world os) :
  let '(w', tr, r) := call_alloc os alloc t w in
  (exists q raw w0,
      r = Returned q /\
      last tr no_event = EvCanonical raw (Returned q) /\
      sys_canonical os raw w0 = (w', Returned q) /\
      forall ev, In ev tr -> raised_by ev = None) \/
  (exists detail,
      r = Thrown (PathMasterError (branch_label (select_branch t) ++ detail)) /\
      last tr no_event
      = EvException (branch_label (select_branch t) ++ detail) (Returned tt) /\
      forall ev e', In ev tr -> raised_by ev = Some e' -> detail = what e') \/
  (exists e text,
      r = Thrown e /\ last tr no_event = EvException text (Thrown e)).
Proof.
  unfold_alloc.
  destruct (select_branch t); cbn [branch_label];
    repeat ask_host alloc; cbn [app last];
    first
      [ solve [ left; eexists _, _, _;
                split; [reflexivity |];
                split; [reflexivity |];
                split; [eassumption |];
                intros ev Hin; in_cases; subst; reflexivity ]
      | solve [ right; left; eexists;
                split; [reflexivity |];
                split; [reflexivity |];
                intros ev e' Hin Hraised; in_cases; subst;
                cbn [raised_by] in Hraised; try discriminate Hraised;
                injection Hraised as <-; reflexivity ]
      | solve [ right; right; eexists _, _; split; reflexivity ] ].
Qed.

(** When the memory for exceptions is always granted, the allocating
    function does what [get_executable_path] does: same world, same
    result, same calls. *)
Lemma call_alloc_refines (os : OS)
    (alloc : string -> world os -> world os * outcome unit)
    (t : target) (w : world os) :
  (forall text x, alloc text x = (x, Returned tt)) ->
  let '(w', tr, r) := call_alloc os alloc t w in
  call os t w = (w', without_exceptions tr, r).
Proof.
  intros Hgranted.
  unfold call, get_executable_path, linux_branch, apple_branch, win32_branch,
    else_branch.
  unfold_alloc.
  destruct (select_branch t);
    repeat first
      [ rewrite Hgranted; cbn [bind try_catch ret throw log fst snd negb]
      | ask_oracle ];
    reflexivity.
Qed.

Lemma last_event_split (tr : list event) (x : event) :
  last tr no_event = x -> x <> no_event ->
  exists tr', tr = (tr' ++ [x])%list.
Proof.
  intros Hlast Hx. destruct tr as [|ev tr].
  - cbn [last] in Hlast. congruence.
  - exists (removelast (ev :: tr)). rewrite <- Hlast.
    apply app_removelast_last. discriminate.
Qed.

(** C1, as written, fails: on a host without [/proc], where
    [read_symlink] throws, and without memory for the message the
    handler concatenates, the call ends with [std::bad_alloc], which is
    no [PathMasterError]. *)
Lemma bad_alloc_escapes_the_handler :
  ~ throws_only_PathMasterError Demo.posix (Demo.allocate_message 40)
      linux_target Demo.no_proc_host.
Proof.
  unfold throws_only_PathMasterError.
  replace (snd (call_alloc Demo.posix (Demo.allocate_message 40)
                  linux_target Demo.no_proc_host))
    with (@Thrown path (MkException BadAllocClass "std::bad_alloc"))
    by (vm_compute; reflexivity).
  cbn [class_of]. discriminate.
Qed.

(** C1, amended: whatever the branch and whatever fails, a call ends in
    one of three ways.  It returns the path that [canonical] returned in
    its last step (hence never an empty, relative or dotted one); or it
    throws a [PathMasterError]; or, when the memory for an exception
    object is refused in a handler or in the branch without handler, it
    throws what that last allocation threw.  An exception raised by an
    allocator, operating-system or filesystem call never escapes as it
    is: it is wrapped, its text at the end of the message, unless that
    last allocation fails. *)
Theorem canonical_path_PathMasterError_or_bad_alloc (os : OS)
    (alloc : string -> world os -> world os * outcome unit)
    (t : target) (w : world os) :
  canonical_contract os ->
  let '(_, tr, r) := call_alloc os alloc t w in
  match r with
  | Returned q =>
      q <> EmptyString /\
      is_absolute (style os) q = true /\
      no_dot_segments (style os) q = true /\
      exists tr' raw, tr = (tr' ++ [EvCanonical raw (Returned q)])%list
  | Thrown e =>
      (exists message, e = PathMasterError message) \/
      (exists tr' text, tr = (tr' ++ [EvException text (Thrown e)])%list)
  end /\
  forall ev e',
    In ev tr -> raised_by ev = Some e' ->
    (exists label, r = Thrown (PathMasterError (label ++ what e'))) \/
    (exists tr' text e,
        tr = (tr' ++ [EvException text (Thrown e)])%list /\ r = Thrown e).
Proof.
  intros Hcontract.
  generalize (call_alloc_cases os alloc t w).
  destruct (call_alloc os alloc t w) as [[w' tr] r].
  intros [(q & raw & w0 & -> & Hlast & Hcanon & Hquiet)
         | [(detail & -> & Hlast & Hwrapped)
           | (e & text & -> & Hlast)]].
  - split.
    + destruct (Hcontract _ _ _ _ Hcanon) as [Habs Hdots].
      destruct (last_event_split _ _ Hlast) as [tr' ->]; [discriminate |].
      repeat split; eauto using is_absolute_not_empty.
    + intros ev e' Hin Hraised. rewrite (Hquiet ev Hin) in Hraised.
      discriminate Hraised.
  - split.
    + left. eexists; reflexivity.
    + intros ev e' Hin Hraised. left.
      rewrite (Hwrapped ev e' Hin Hraised). eexists; reflexivity.
  - destruct (last_event_split _ _ Hlast) as [tr' ->]; [discriminate |].
    split.
    + right. eexists _, _; reflexivity.
    + intros ev e' Hin Hraised. right. eexists _, _, _; split; reflexivity.
Qed.

Lemma canonical_path_PathMasterError_or_bad_alloc_witness :
  canonical_contract Demo.posix /\
  snd (call_alloc Demo.posix (Demo.allocate_message 1000) apple_target Demo.deep_host)
  = Returned Demo.deep_image /\
  let '(_, tr, r) :=
    call_alloc Demo.posix (Demo.allocate_message 1000) apple_target Demo.deep_host in
  match r with
  | Returned q =>
      q <> EmptyString /\
      is_absolute Posix q = true /\
      no_dot_segments Posix q = true /\
      exists tr' raw, tr = (tr' ++ [EvCanonical raw (Returned q)])%list
  | Thrown e =>
      (exists message, e = PathMasterError message) \/
      (exists tr' text, tr = (tr' ++ [EvException text (Thrown e)])%list)
  end /\
  forall ev e',
    In ev tr -> raised_by ev = Some e' ->
    (exists label, r = Thrown (PathMasterError (label ++ what e'))) \/
    (exists tr' text e,
        tr = (tr' ++ [EvException text (Thrown e)])%list /\ r = Thrown e).
Proof.
  split; [apply demo_machine_contract |].
  split; [vm_compute; reflexivity |].
  apply (canonical_path_PathMasterError_or_bad_alloc Demo.posix
           (Demo.allocate_message 1000) apple_target Demo.deep_host).
  apply demo_machine_contract.
Defined.

(** ** The prefix of the messages *)

(** On the Apple branch, with memory for everything and a loader that
    refuses every query, the exception of line 68 is caught by the
    handler of line 73 and wrapped again. *)
Lemma refused_queries_wrapped_twice (os : OS)
    (alloc : string -> world os -> world os * outcome unit)
    (t : target) (w : world os) :
  defined_linux t = false ->
  defined_APPLE t = true ->
  (forall n x, snd (sys_allocate os n x) = Returned tt) ->
  (forall n x, fst (fst (snd (sys_NSGetExecutablePath os n x))) <> 0%Z) ->
  (forall text x, snd (alloc text x) = Returned tt) ->
  snd (call_alloc os alloc t w)
  = Thrown (PathMasterError
              ("Failed to canonicalize the path on MacOS: "
               ++ "PathMasterError: Failed to get the executable path on MacOS after resizing the buffer")).
Proof.
  intros Hlinux Happle Hmemory Hrefused Hmessages.
  unfold_alloc. unfold select_branch. rewrite Hlinux, Happle.
  repeat ask_host alloc; cbn [snd];
    try solve
      [ exfalso;
        match goal with
        | H : sys_allocate os ?n ?x = (_, Thrown _) |- _ =>
            generalize (Hmemory n x); rewrite H; discriminate
        | H : alloc ?text ?x = (_, Thrown _) |- _ =>
            generalize (Hmessages text x); rewrite H; discriminate
        | H : sys_NSGetExecutablePath os ?n ?x = (_, (0%Z, _, _)) |- _ =>
            generalize (Hrefused n x); rewrite H; cbn [fst snd];
            intros Hne; exact (Hne eq_refl)
        end ];
    reflexivity.
Qed.

(** C10, as written, fails: on a host where the binary was unlinked,
    [canonical] throws, and without memory for the handler's message
    the call ends with an exception whose [what()] is "std::bad_alloc",
    without the prefix. *)
Lemma bad_alloc_has_no_prefix :
  ~ every_what_has_prefix Demo.posix (Demo.allocate_message 40)
      apple_target Demo.unlinked_host.
Proof.
  unfold every_what_has_prefix. intros Hprefix.
  specialize (Hprefix (MkException BadAllocClass "std::bad_alloc")).
  assert (Hrun :
    snd (call_alloc Demo.posix (Demo.allocate_message 40)
           apple_target Demo.unlinked_host)
    = Thrown (MkException BadAllocClass "std::bad_alloc"))
    by (vm_compute; reflexivity).
  specialize (Hprefix Hrun). cbn [what] in Hprefix.
  vm_compute in Hprefix. discriminate Hprefix.
Qed.

(** C10, amended: every [PathMasterError] a call throws carries a
    [what()] that begins with "PathMasterError: ", and a call throws
    nothing else but what a refused allocation of an exception object
    threw, as its last step.  On the Apple branch (the Windows branch
    does not compile), when memory is never refused and the loader
    refuses every query, the [PathMasterError] thrown inside the [try]
    block is caught and wrapped again by the outer handler: the message
    holds the prefix twice. *)
Theorem PathMasterError_carries_prefix (os : OS)
    (alloc : string -> world os -> world os * outcome unit)
    (t : target) (w : world os) :
  let '(_, tr, r) := call_alloc os alloc t w in
  (forall e,
      r = Thrown e ->
      (class_of e = PathMasterErrorClass /\
       String.prefix "PathMasterError: " (what e) = true) \/
      (exists tr' text, tr = (tr' ++ [EvException text (Thrown e)])%list)) /\
  (defined_linux t = false ->
   defined_APPLE t = true ->
   (forall n x, snd (sys_allocate os n x) = Returned tt) ->
   (forall n x, fst (fst (snd (sys_NSGetExecutablePath os n x))) <> 0%Z) ->
   (forall text x, snd (alloc text x) = Returned tt) ->
   exists e,
     r = Thrown e /\
     what e = "PathMasterError: Failed to canonicalize the path on MacOS: PathMasterError: Failed to get the executable path on MacOS after resizing the buffer" /\
     occurrences "PathMasterError: " (what e) = 2).
Proof.
  generalize (call_alloc_cases os alloc t w).
  generalize (refused_queries_wrapped_twice os alloc t w).
  destruct (call_alloc os alloc t w) as [[w' tr] r]. cbn [snd].
  intros Htwice Hcases. split.
  - intros e He. subst r.
    destruct Hcases as [(q & raw & w0 & Hr & _)
                       | [(detail & Hr & _)
                         | (e0 & text & Hr & Hlast)]].
    + discriminate Hr.
    + injection Hr as ->. left. split; [reflexivity |].
      apply (prefix_append PathMasterError_prefix).
    + injection Hr as <-. right.
      destruct (last_event_split _ _ Hlast) as [tr' ->]; [discriminate |].
      eexists _, _; reflexivity.
  - intros Hlinux Happle Hmemory Hrefused Hmessages.
    rewrite (Htwice Hlinux Happle Hmemory Hrefused Hmessages).
    eexists. split; [reflexivity |]. split; reflexivity.
Qed.

Lemma PathMasterError_carries_prefix_witness :
  defined_linux apple_target = false /\
  defined_APPLE apple_target = true /\
  (forall n x, snd (sys_allocate Broken.machine n x) = Returned tt) /\
  (forall n x,
      fst (fst (snd (sys_NSGetExecutablePath Broken.machine n x))) <> 0%Z) /\
  (forall text x, snd (Broken.allocate_message text x) = Returned tt) /\
  exists e,
    snd (call_alloc Broken.machine Broken.allocate_message apple_target tt) = Thrown e /\
    what e = "PathMasterError: Failed to canonicalize the path on MacOS: PathMasterError: Failed to get the executable path on MacOS after resizing the buffer" /\
    occurrences "PathMasterError: " (what e) = 2.
Proof.
  split; [reflexivity |].
  split; [reflexivity |].
  split; [intros n x; reflexivity |].
  split; [intros n x; cbn; discriminate |].
  split; [intros text x; reflexivity |].
  generalize (PathMasterError_carries_prefix Broken.machine
                Broken.allocate_message apple_target tt).
  destruct (call_alloc Broken.machine Broken.allocate_message apple_target tt)
    as [[w' tr] r]. cbn [snd].
  intros [_ Htwice]. apply Htwice.
  - reflexivity.
  - reflexivity.
  - intros n x. reflexivity.
  - intros n x. cbn. discriminate.
  - intros text x. reflexivity.
Defined.

(** * What is canonicalized, and what is returned *)

Lemma c_str_terminated (name : string) (rest : list ascii) :
  ~ In NUL (list_ascii_of_string name) ->
  c_str (list_ascii_of_string name ++ NUL :: rest)%list = name.
Proof.
  induction name as [|c name IH]; intros Hfree;
    cbn [list_ascii_of_string app c_str].
  - unfold NUL. rewrite Ascii.eqb_refl. reflexivity.
  - cbn [list_ascii_of_string In] in Hfree.
    destruct (Ascii.eqb c NUL) eqn:Hc.
    + apply Ascii.eqb_eq in Hc. exfalso. apply Hfree. left. exact Hc.
    + f_equal. apply IH. intros Hin. apply Hfree. right. exact Hin.
Qed.

Lemma terminator_within (k : nat) (name : string) (rest : list ascii) :
  (String.length name < k)%nat ->
  In NUL (firstn k (list_ascii_of_string name ++ NUL :: rest)%list).
Proof.
  revert k. induction name as [|c name IH]; intros k Hk;
    (destruct k as [|k]; [inversion Hk |]);
    cbn [list_ascii_of_string app firstn In].
  - left. reflexivity.
  - right. apply IH. cbn [String.length] in Hk. lia.
Qed.

(** What the Apple branch hands to [canonical] when the query that
    returned zero wrote a terminated string. *)
Lemma apple_raw_is_written (written : list ascii) (buf : buffer) (bs : N)
    (name : string) (rest : list ascii) :
  buffer_size buf = bs ->
  written = (list_ascii_of_string name ++ NUL :: rest)%list ->
  ~ In NUL (list_ascii_of_string name) ->
  (String.length name < N.to_nat bs)%nat ->
  c_str (store written buf) = name.
Proof.
  intros Hsize -> Hfree Hfits.
  rewrite c_str_store.
  - apply c_str_terminated. exact Hfree.
  - rewrite (length_of_buffer_size _ _ Hsize).
    apply terminator_within. exact Hfits.
Qed.

(** C5: a path returned by a successful call is absolute and has no
    [.] or [..] segment, because it is what [canonical] returned in the
    last step, for the raw path the operating system provided: on the
    Linux branch the target that [read_symlink] read from
    [/proc/self/exe], on the Apple branch the string that the last dyld
    query, which returned zero, wrote into the buffer.  (The Windows
    branch does not compile; under the reading of [win32_branch] its
    result is what [canonical] returned as well.) *)
Theorem returned_path_is_canonical_of_raw (os : OS) (t : target) (w w' : world os) tr q :
  canonical_contract os ->
  call os t w = (w', tr, Returned q) ->
  is_absolute (style os) q = true /\
  no_dot_segments (style os) q = true /\
  exists tr' raw,
    tr = (tr' ++ [EvCanonical raw (Returned q)])%list /\
    match select_branch t with
    | LinuxBranch => tr' = [EvReadSymlink "/proc/self/exe" (Returned raw)]
    | AppleBranch =>
        exists tr'' bs written n,
          tr' = (tr'' ++ [EvNSGetExecutablePath bs 0 written n])%list /\
          forall name rest,
            written = (list_ascii_of_string name ++ NUL :: rest)%list ->
            ~ In NUL (list_ascii_of_string name) ->
            (String.length name < N.to_nat bs)%nat ->
            raw = name
    | Win32Branch | ElseBranch => True
    end.
Proof.
  intros Hcontract Hcall.
  apply call_runs_eq in Hcall.
  destruct (returned_by_canonical _ _ _ _ _ _ Hcall) as (tr0 & raw0 & w0 & _ & Hq).
  destruct (Hcontract _ _ _ _ Hq) as [Habs Hdots].
  split; [exact Habs |]. split; [exact Hdots |].
  clear Hq Habs Hdots.
  destruct (select_branch t); invert_run Hcall.
  - exists [EvReadSymlink proc_self_exe (Returned raw)], raw.
    split; reflexivity.
  - eexists [_; _], _. split; [reflexivity |].
    exists [EvVectorNew PATH_MAX (Returned tt)]; eexists _, _, _.
    split; [reflexivity |].
    intros name rest Hwritten Hfree Hfits.
    exact (apple_raw_is_written _ _ _ _ _ (buffer_size_zeros PATH_MAX)
             Hwritten Hfree Hfits).
  - eexists [_; _; _; _], _. split; [reflexivity |].
    eexists [_; _; _]; eexists _, _, _.
    split; [reflexivity |].
    intros name rest Hwritten Hfree Hfits.
    match goal with H : resize_step _ _ _ _ _ _ _ |- _ =>
      exact (apple_raw_is_written _ _ _ _ _ (resize_step_size _ _ _ _ _ _ _ H)
               Hwritten Hfree Hfits)
    end.
  - eexists [_; _], _. split; [reflexivity | exact I].
Qed.

Lemma returned_path_is_canonical_of_raw_witness :
  canonical_contract Demo.posix /\
  call Demo.posix apple_target Demo.unix_host
  = (Demo.unix_host,
     [EvVectorNew 1024 (Returned tt);
      EvNSGetExecutablePath 1024 0
        (list_ascii_of_string "/home/user/build/../build/pathmaster_test" ++ [NUL])%list
        1024;
      EvCanonical "/home/user/build/../build/pathmaster_test"
        (Returned "/home/user/build/pathmaster_test")],
     Returned "/home/user/build/pathmaster_test") /\
  is_absolute Posix "/home/user/build/pathmaster_test" = true /\
  no_dot_segments Posix "/home/user/build/pathmaster_test" = true /\
  exists tr' raw,
    [EvVectorNew 1024 (Returned tt);
     EvNSGetExecutablePath 1024 0
       (list_ascii_of_string "/home/user/build/../build/pathmaster_test" ++ [NUL])%list
       1024;
     EvCanonical "/home/user/build/../build/pathmaster_test"
       (Returned "/home/user/build/pathmaster_test")]
    = (tr' ++ [EvCanonical raw (Returned "/home/user/build/pathmaster_test")])%list /\
    exists tr'' bs written n,
      tr' = (tr'' ++ [EvNSGetExecutablePath bs 0 written n])%list /\
      forall name rest,
        written = (list_ascii_of_string name ++ NUL :: rest)%list ->
        ~ In NUL (list_ascii_of_string name) ->
        (String.length name < N.to_nat bs)%nat ->
        raw = name.
Proof.
  split; [apply demo_machine_contract |].
  split; [vm_compute; reflexivity |].
  apply (returned_path_is_canonical_of_raw Demo.posix apple_target
           Demo.unix_host Demo.unix_host).
  - apply demo_machine_contract.
  - vm_compute. reflexivity.
Defined.

(** * Calls that see the same executable *)

Section SameExecutable.

Variable os : OS.
Variable sim : world os -> world os -> Prop.

Hypothesis sim_refl : forall a, sim a a.
Hypothesis sim_sym : forall a b, sim a b -> sim b a.
Hypothesis sim_trans : forall a b c, sim a b -> sim b c -> sim a c.
Hypothesis stays : respects os sim.
Hypothesis answers : same_answers os sim.

Ltac reach a :=
  destruct stays as (Hs_alloc & Hs_link & Hs_canon & Hs_query & Hs_module);
  repeat match goal with
         | H : sys_allocate os ?n ?x = (?y, _), S : sim a ?x |- _ =>
             lazymatch goal with
             | _ : sim a y |- _ => fail
             | _ => assert (sim a y)
                 by (apply (sim_trans _ _ _ S);
                     generalize (Hs_alloc n x); rewrite H; exact (fun F => F))
             end
         | H : sys_read_symlink os ?n ?x = (?y, _), S : sim a ?x |- _ =>
             lazymatch goal with
             | _ : sim a y |- _ => fail
             | _ => assert (sim a y)
                 by (apply (sim_trans _ _ _ S);
                     generalize (Hs_link n x); rewrite H; exact (fun F => F))
             end
         | H : sys_canonical os ?n ?x = (?y, _), S : sim a ?x |- _ =>
             lazymatch goal with
             | _ : sim a y |- _ => fail
             | _ => assert (sim a y)
                 by (apply (sim_trans _ _ _ S);
                     generalize (Hs_canon n x); rewrite H; exact (fun F => F))
             end
         | H : sys_NSGetExecutablePath os ?n ?x = (?y, _), S : sim a ?x |- _ =>
             lazymatch goal with
             | _ : sim a y |- _ => fail
             | _ => assert (sim a y)
                 by (apply (sim_trans _ _ _ S);
                     generalize (Hs_query n x); rewrite H; exact (fun F => F))
             end
         | H : sys_GetModuleFileNameW os ?n ?x = (?y, _), S : sim a ?x |- _ =>
             lazymatch goal with
             | _ : sim a y |- _ => fail
             | _ => assert (sim a y)
                 by (apply (sim_trans _ _ _ S);
                     generalize (Hs_module n x); rewrite H; exact (fun F => F))
             end
         end.

(** A run ends in a world related to the one it started in. *)
Lemma runs_stay (b : branch) (w w' : world os) tr r :
  runs os b w w' tr r -> sim w w'.
Proof.
  intros Hruns. assert (Hstart := sim_refl w).
  invert_run Hruns; invert_resizes;
    match type of Hstart with sim ?a _ => reach a end; assumption.
Qed.

Ltac agree a :=
  destruct answers as (Ha_link & Ha_canon & Ha_query & Ha_module);
  repeat match goal with
         | H1 : sys_read_symlink os ?p ?x = (_, ?r1),
           H2 : sys_read_symlink os ?p ?y = (_, ?r2),
           S1 : sim a ?x, S2 : sim a ?y |- _ =>
             lazymatch x with y => fail | _ => idtac end;
             let E := fresh "E" in
             assert (E : r1 = r2)
               by (generalize (Ha_link p x y (sim_trans _ _ _ (sim_sym _ _ S1) S2));
                   rewrite H1, H2; exact (fun F => F));
             clear H2; inversion E; subst
         | H1 : sys_canonical os ?p ?x = (_, ?r1),
           H2 : sys_canonical os ?p ?y = (_, ?r2),
           S1 : sim a ?x, S2 : sim a ?y |- _ =>
             lazymatch x with y => fail | _ => idtac end;
             let E := fresh "E" in
             assert (E : r1 = r2)
               by (generalize (Ha_canon p x y (sim_trans _ _ _ (sim_sym _ _ S1) S2));
                   rewrite H1, H2; exact (fun F => F));
             clear H2; inversion E; subst
         | H1 : sys_NSGetExecutablePath os ?p ?x = (_, ?r1),
           H2 : sys_NSGetExecutablePath os ?p ?y = (_, ?r2),
           S1 : sim a ?x, S2 : sim a ?y |- _ =>
             lazymatch x with y => fail | _ => idtac end;
             let E := fresh "E" in
             assert (E : r1 = r2)
               by (generalize (Ha_query p x y (sim_trans _ _ _ (sim_sym _ _ S1) S2));
                   rewrite H1, H2; exact (fun F => F));
             clear H2; inversion E; subst
         | H1 : sys_GetModuleFileNameW os ?p ?x = (_, ?r1),
           H2 : sys_GetModuleFileNameW os ?p ?y = (_, ?r2),
           S1 : sim a ?x, S2 : sim a ?y |- _ =>
             lazymatch x with y => fail | _ => idtac end;
             let E := fresh "E" in
             assert (E : r1 = r2)
               by (generalize (Ha_module p x y (sim_trans _ _ _ (sim_sym _ _ S1) S2));
                   rewrite H1, H2; exact (fun F => F));
             clear H2; inversion E; subst
         end.

(** Two runs of one branch from related worlds that both return,
    return the same path, whatever the allocator did in each. *)
Lemma returns_agree (b : branch) (wa wa' wb wb' : world os) tra trb qa qb :
  sim wa wb ->
  runs os b wa wa' tra (Returned qa) ->
  runs os b wb wb' trb (Returned qb) ->
  qa = qb.
Proof.
  intros Hab Ha Hb. assert (Hstart := sim_refl wa).
  invert_run Ha; invert_run Hb; invert_resizes;
    match type of Hstart with sim ?a _ => reach a; agree a end;
    try reflexivity; try contradiction; try congruence; try lia.
Qed.

End SameExecutable.

(** C9: two calls made one after the other in one process return the
    same path when both succeed and the executable is unmodified in
    between: every call to the host leaves the world among those in
    which the host answers the questions about the executable (the
    link, the image path, the canonical form of a path) alike.  The
    world may change otherwise, and the allocator may answer
    differently each time: the function carries nothing from one call
    to the next, its buffers start zero-filled, and its result depends
    on the answers to its queries only. *)
Theorem repeated_calls_agree (os : OS) (sim : world os -> world os -> Prop)
    (t : target) (w w' : world os) tr (first second : path) :
  (forall a, sim a a) ->
  (forall a b, sim a b -> sim b a) ->
  (forall a b c, sim a b -> sim b c -> sim a c) ->
  respects os sim ->
  same_answers os sim ->
  call_twice os t (w, []) = ((w', tr), Returned (first, second)) ->
  first = second.
Proof.
  intros Hrefl Hsym Htrans Hstays Hanswers.
  unfold call_twice, bind, ret.
  destruct (get_executable_path os t (w, [])) as [[w1 tr1] [p1|e1]] eqn:Hfirst;
    [| intros H; discriminate H].
  rewrite (appends_get_executable_path os t w1 tr1).
  destruct (get_executable_path os t (w1, [])) as [[w2 tr2] [p2|e2]] eqn:Hsecond;
    intros H; [| discriminate H].
  injection H as _ _ <- <-.
  assert (R1 : runs os (select_branch t) w w1 tr1 (Returned p1))
    by (apply call_runs_eq; unfold call; rewrite Hfirst; reflexivity).
  assert (R2 : runs os (select_branch t) w1 w2 tr2 (Returned p2))
    by (apply call_runs_eq; unfold call; rewrite Hsecond; reflexivity).
  exact (returns_agree os sim Hrefl Hsym Htrans Hstays Hanswers _ _ _ _ _ _ _ _ _
           (runs_stay os sim Hrefl Htrans Hstays _ _ _ _ _ R1) R1 R2).
Qed.

Lemma counted_host {A B : Type} (f : A -> Demo.host -> Demo.host * B) :
  (forall a h, fst (f a h) = h) ->
  forall a w, Counting.same_host w (fst (Counting.counted f a w)).
Proof.
  intros Hf a w. unfold Counting.same_host, Counting.counted.
  specialize (Hf a (fst w)).
  destruct (f a (fst w)) as [h r]. cbn [fst] in *. congruence.
Qed.

Lemma counted_answer {A B : Type} (f : A -> Demo.host -> Demo.host * B) :
  forall a x y,
    Counting.same_host x y ->
    snd (Counting.counted f a x) = snd (Counting.counted f a y).
Proof.
  intros a x y Hxy. unfold Counting.same_host in Hxy.
  unfold Counting.counted. rewrite Hxy.
  destruct (f a (fst y)) as [h r]. reflexivity.
Qed.

Lemma counting_respects : respects Counting.machine Counting.same_host.
Proof.
  unfold respects.
  cbn [Counting.machine sys_allocate sys_read_symlink sys_canonical
       sys_NSGetExecutablePath sys_GetModuleFileNameW world].
  repeat split; apply counted_host; intros x h.
  - unfold Demo.allocate. destruct (x <=? Demo.heap h)%N; reflexivity.
  - unfold Demo.do_read_symlink.
    destruct (Demo.exe_link h); [destruct (String.eqb x proc_self_exe) |]; reflexivity.
  - unfold Demo.do_canonical.
    match goal with |- context [if ?b then _ else _] => destruct b end; reflexivity.
  - unfold Demo.do_NSGetExecutablePath.
    match goal with |- context [if ?b then _ else _] => destruct b end; reflexivity.
  - unfold Demo.do_GetModuleFileNameW.
    match goal with |- context [if ?b then _ else _] => destruct b end; reflexivity.
Qed.

Lemma counting_same_answers : same_answers Counting.machine Counting.same_host.
Proof.
  unfold same_answers.
  cbn [Counting.machine sys_read_symlink sys_canonical
       sys_NSGetExecutablePath sys_GetModuleFileNameW world].
  repeat split; intros p a b Hab; apply counted_answer; exact Hab.
Qed.

Lemma repeated_calls_agree_witness :
  (forall a, Counting.same_host a a) /\
  (forall a b, Counting.same_host a b -> Counting.same_host b a) /\
  (forall a b c,
      Counting.same_host a b -> Counting.same_host b c -> Counting.same_host a c) /\
  respects Counting.machine Counting.same_host /\
  same_answers Counting.machine Counting.same_host /\
  call_twice Counting.machine linux_target ((Demo.unix_host, 0%nat), [])
  = (((Demo.unix_host, 4%nat),
      [EvReadSymlink "/proc/self/exe" (Returned "/home/user/build/./pathmaster_test");
       EvCanonical "/home/user/build/./pathmaster_test"
         (Returned "/home/user/build/pathmaster_test");
       EvReadSymlink "/proc/self/exe" (Returned "/home/user/build/./pathmaster_test");
       EvCanonical "/home/user/build/./pathmaster_test"
         (Returned "/home/user/build/pathmaster_test")]),
     Returned ("/home/user/build/pathmaster_test", "/home/user/build/pathmaster_test")) /\
  "/home/user/build/pathmaster_test" = "/home/user/build/pathmaster_test".
Proof.
  assert (Hrefl : forall a, Counting.same_host a a)
    by (intros a; reflexivity).
  assert (Hsym : forall a b, Counting.same_host a b -> Counting.same_host b a)
    by (intros a b H; exact (eq_sym H)).
  assert (Htrans : forall a b c,
             Counting.same_host a b -> Counting.same_host b c ->
             Counting.same_host a c)
    by (intros a b c H1 H2; exact (eq_trans H1 H2)).
  split; [exact Hrefl |].
  split; [exact Hsym |].
  split; [exact Htrans |].
  split; [exact counting_respects |].
  split; [exact counting_same_answers |].
  split; [vm_compute; reflexivity |].
  eapply (repeated_calls_agree Counting.machine Counting.same_host linux_target
            (Demo.unix_host, 0%nat) _ _ _ _
            Hrefl Hsym Htrans counting_respects counting_same_answers).
  vm_compute. reflexivity.
Defined.

(** * The self-test on the builds that exist *)



(** * The message names the platform *)

(** X1: on every target the header compiles for, an exception that
    leaves the call is either what a refused allocation of an exception
    object threw in the last step, or a [PathMasterError] whose
    [what()] is "PathMasterError: ", then the one text the compiled
    branch puts in front of every failure, then the detail. *)
Theorem failure_message_names_the_branch (os : OS)
    (alloc : string -> world os -> world os * outcome unit)
    (t : target) (w w' : world os) tr e :
  builds t = true ->
  call_alloc os alloc t w = (w', tr, Thrown e) ->
  (exists detail,
      e = PathMasterError (branch_label (select_branch t) ++ detail) /\
      what e = "PathMasterError: " ++ branch_label (select_branch t) ++ detail) \/
  (exists tr' text, tr = (tr' ++ [EvException text (Thrown e)])%list).
Proof.
  intros _ Hcall.
  generalize (call_alloc_cases os alloc t w). rewrite Hcall.
  intros [(q & raw & w0 & Hr & _)
         | [(detail & Hr & _)
           | (e0 & text & Hr & Hlast)]].
  - discriminate Hr.
  - injection Hr as ->. left. exists detail. split; reflexivity.
  - injection Hr as <-. right.
    destruct (last_event_split _ _ Hlast) as [tr' ->]; [discriminate |].
    eexists _, _; reflexivity.
Qed.

Lemma failure_message_names_the_branch_witness :
  builds linux_target = true /\
  (exists detail,
      what (PathMasterError
              ("Failed to get the executable path on GNU/Linux: "
               ++ what (Demo.filesystem_error "read symlink" "/proc/self/exe")))
      = "PathMasterError: " ++ branch_label LinuxBranch ++ detail) .
Proof.
  split; [reflexivity |].
  destruct (failure_message_names_the_branch Demo.posix (Demo.allocate_message 1000)
              linux_target Demo.no_proc_host Demo.no_proc_host
              [EvReadSymlink "/proc/self/exe"
                 (Thrown (Demo.filesystem_error "read symlink" "/proc/self/exe"));
               EvException
                 ("Failed to get the executable path on GNU/Linux: "
                  ++ what (Demo.filesystem_error "read symlink" "/proc/self/exe"))
                 (Returned tt)]
              (PathMasterError
                 ("Failed to get the executable path on GNU/Linux: "
                  ++ what (Demo.filesystem_error "read symlink" "/proc/self/exe")))
              eq_refl)
    as [(detail & _ & Hwhat) | (tr' & text & Hlog)].
  - vm_compute. reflexivity.
  - exists detail. exact Hwhat.
  - apply (f_equal (fun l => last l no_event)) in Hlog.
    rewrite last_last in Hlog. cbn [last] in Hlog. discriminate Hlog.
Defined.
